(** * Event-sourced Formation aggregate (src/index.ts)

    A shallow embedding of the event store, the domain events, the
    Formation aggregate and its repository, followed by the properties
    proved about them.

    Conventions of the embedding.
    - JavaScript values that the program moves around are the inductive
      [value]; a plain object used as a mapping ([changes], the folded
      [state], constructor arguments) is a [gmap string value].
    - A string is a Rocq string and [<] on strings is [String.ltb], the
      lexicographic order on character codes, as JavaScript orders strings
      of ASCII characters such as ISO timestamps.
    - A [number] is an integer: the program stores and copies numbers and
      never computes with them.
    - A JavaScript exception is the [Throw] branch of [result]; code that
      reads or writes the store runs in the monad [M], a state monad over
      the store's private [events] array with exceptions.
    - The wall clock [(new Date()).toISOString()] is an explicit argument
      [now] of every operation that stamps an event.
    - A method that receives a mutable object returns that object's state
      after the call ([planifierLe], [persist]).
    - [Array.prototype.sort] is modelled in [ArraySort].
    - The store, [list] and [getById] are modelled twice: on values, where
      every event carries its payload, and in [Heap], where arrays, event
      objects and payloads have an identity and can be shared.  [Heap] is
      what the properties about sharing and about writes are stated on;
      [Heap.contents] reads a heap back as a store of values, and
      [add_contents], [list_spec] and [heap_getById_spec] show that the two
      levels agree.
    - The reads are also modelled in [Runtime], where a record of the
      store may lack [createdAt] and the clock at the time of the read is
      an argument, as the constructor called by [fromState] has it;
      [fromState_typed], [list_typed] and [getById_typed] show that the
      reads above are these reads on records that carry a [createdAt]. *)

From Stdlib Require Import ZArith String Ascii Sorting.Sorted Permutation.
From stdpp Require Import gmap strings list fin_maps.

Local Open Scope string_scope.
Local Open Scope list_scope.

(** ** JavaScript values and plain objects *)

Inductive value : Type :=
| VUndefined
| VNull
| VString (s : string)
| VNumber (n : Z).

#[global] Instance value_eq_dec : EqDecision value.
Proof. solve_decision. Defined.

(** A plain object: own enumerable string-keyed properties. *)
Abbreviation obj := (gmap string value).

(** Property read [o.k]: a missing property reads as [undefined]. *)
Definition get (o : obj) (k : string) : value := default VUndefined (o !! k).

(** Nullish coalescing [v ?? d]. *)
Definition coalesce (v d : value) : value :=
  match v with
  | VUndefined | VNull => d
  | _ => v
  end.

(** Object spread [{ ...prev, ...cur }]: the properties of [prev], then
    those of [cur], a later one replacing an earlier one of the same key. *)
Definition spread (prev cur : obj) : obj := cur ∪ prev.

(** Strict equality [a === b] on the values above. *)
Definition strict_eq (a b : value) : bool := bool_decide (a = b).

(** ** Exceptions *)

Inductive exn : Type :=
| Error (message : string).

Inductive result (A : Type) : Type :=
| Ok (a : A)
| Throw (e : exn).
Arguments Ok {A} a.
Arguments Throw {A} e.

(** [Array.prototype.map] with a callback that may throw: the callbacks run
    in index order and the first exception aborts the call. *)
Fixpoint map_result {A B : Type} (f : A → result B) (l : list A) : result (list B) :=
  match l with
  | [] => Ok []
  | x :: xs =>
      match f x with
      | Throw e => Throw e
      | Ok y =>
          match map_result f xs with
          | Throw e => Throw e
          | Ok ys => Ok (y :: ys)
          end
      end
  end.

(** ** Array.prototype.sort

    The comparator of the program never returns 0, so it is not a
    consistent comparison function and the language standard leaves the
    resulting order to the engine.  The model is the engine the program
    runs on (Node, V8): its sort decides every pair of elements by the
    test [comparefn(b, a) < 0] where [a] precedes [b] in the array, which
    is what a left-to-right insertion sort does when each element is
    placed before the first element it is smaller than. *)
Module ArraySort.
Section Sort.
Context {A : Type} (comparefn : A → A → Z).

Fixpoint insert (x : A) (placed : list A) : list A :=
  match placed with
  | [] => [x]
  | y :: ys =>
      if (comparefn x y <? 0)%Z then x :: y :: ys else y :: insert x ys
  end.

Definition sort (l : list A) : list A :=
  fold_left (λ placed x, insert x placed) l [].

End Sort.
End ArraySort.

(** ** Event records and domain events *)

Module IEvent.
Record t : Type := mk {
  nom : string;
  changes : obj;
  createdAt : string;
  aggregateId : value
}.
End IEvent.

(** The two concrete subclasses of the abstract class [DomainEvent]. *)
Inductive EventClass : Type :=
| FormationCreee
| FormationPlanifiee.

#[global] Instance EventClass_eq_dec : EqDecision EventClass.
Proof. solve_decision. Defined.

Module DomainEvent.
Record t : Type := mk {
  class : EventClass;
  aggregateId : value;
  createdAt : string;
  changes : obj
}.

(** The [nom] property each subclass initialises. *)
Definition nom (e : t) : string :=
  match class e with
  | FormationCreee => "FORMATION_CREEE"
  | FormationPlanifiee => "FORMATION_PLANIFIEE"
  end.

(** The protected constructor: [createdAt ?? (new Date()).toISOString()]. *)
Definition new (c : EventClass) (aggregateId : value) (changes : obj)
    (createdAt : option string) (now : string) : t :=
  {| class := c;
     aggregateId := aggregateId;
     changes := changes;
     createdAt := default now createdAt |}.

Definition toState (e : t) : IEvent.t :=
  {| IEvent.nom := nom e;
     IEvent.aggregateId := aggregateId e;
     IEvent.createdAt := createdAt e;
     IEvent.changes := changes e |}.

(** The clock is not consulted when [createdAt] is supplied; [fromState]
    always supplies it, so the model passes the record's own timestamp
    for the unused default.  [Runtime.fromState] below is the same
    function with the clock as an argument and a [createdAt] that may be
    missing. *)
Definition fromState (e : IEvent.t) : result t :=
  if String.eqb (IEvent.nom e) "FORMATION_CREEE" then
    Ok (new FormationCreee (IEvent.aggregateId e) (IEvent.changes e)
          (Some (IEvent.createdAt e)) (IEvent.createdAt e))
  else if String.eqb (IEvent.nom e) "FORMATION_PLANIFIEE" then
    Ok (new FormationPlanifiee (IEvent.aggregateId e) (IEvent.changes e)
          (Some (IEvent.createdAt e)) (IEvent.createdAt e))
  else Throw (Error "Type d'évènement inconnu").

End DomainEvent.

#[global] Instance DomainEvent_eq_dec : EqDecision DomainEvent.t.
Proof. solve_decision. Defined.

#[global] Instance IEvent_eq_dec : EqDecision IEvent.t.
Proof. solve_decision. Defined.

(** [FormationCreee.creer] and [FormationPlanifiee.creer]: no [createdAt]
    is passed, the event is stamped with the clock. *)
Definition FormationCreee_creer (aggregateId : value) (data : obj) (now : string)
    : DomainEvent.t :=
  DomainEvent.new FormationCreee aggregateId data None now.

Definition FormationPlanifiee_creer (aggregateId : value) (data : obj) (now : string)
    : DomainEvent.t :=
  DomainEvent.new FormationPlanifiee aggregateId data None now.

(** ** The store monad *)

(** The state is the private [events] array of [InMemoryEventStore]. *)
Abbreviation store := (list IEvent.t).

Definition M (A : Type) : Type := store → result A * store.

#[global] Instance M_ret : MRet M := λ A a s, (Ok a, s).

#[global] Instance M_bind : MBind M := λ A B k m s,
  match m s with
  | (Ok a, s') => k a s'
  | (Throw e, s') => (Throw e, s')
  end.

(** [Array.prototype.forEach] with a callback that runs in [M]. *)
Fixpoint forEach {A : Type} (l : list A) (callback : A → M unit) : M unit :=
  match l with
  | [] => mret tt
  | x :: xs => callback x;; forEach xs callback
  end.

(** ** InMemoryEventStore *)

Module InMemoryEventStore.

(** [private readonly events: IEvent[] = []] *)
Definition empty : store := [].

Definition add (event : DomainEvent.t) : M unit :=
  λ events, (Ok tt, (events ++ [DomainEvent.toState event])%list).

Definition list : M (list DomainEvent.t) :=
  λ events, (map_result DomainEvent.fromState events, events).

End InMemoryEventStore.

(** ** The Formation aggregate *)

Module Formation.

(** The fields of [Formation], and [events] inherited from [Aggregate].
    The declared types are [string] and [number]; [fromState] is called
    with an [any], so at run time every field holds whatever the folded
    state held. *)
Record t : Type := mk {
  id : value;
  nom : value;
  dureeEnHeures : value;
  date : value;
  nomFormateur : value;
  events : list DomainEvent.t
}.

(** The private constructor; [args] is its argument object. *)
Definition new (args : obj) : t :=
  {| events := [];
     id := get args "id";
     nom := get args "nom";
     dureeEnHeures := get args "dureeEnHeures";
     date := coalesce (get args "date") VNull;
     nomFormateur := coalesce (get args "nomFormateur") VNull |}.

(** [this.events.push(e)] *)
Definition push (f : t) (e : DomainEvent.t) : t :=
  {| id := id f; nom := nom f; dureeEnHeures := dureeEnHeures f;
     date := date f; nomFormateur := nomFormateur f;
     events := (events f ++ [e])%list |}.

Definition planifierLe (f : t) (date' nomFormateur' : string) (now : string) : t :=
  let f1 :=
    {| id := id f; nom := nom f; dureeEnHeures := dureeEnHeures f;
       date := VString date'; nomFormateur := nomFormateur f;
       events := events f |} in
  let f2 :=
    {| id := id f1; nom := nom f1; dureeEnHeures := dureeEnHeures f1;
       date := date f1; nomFormateur := VString nomFormateur';
       events := events f1 |} in
  push f2
    (FormationPlanifiee_creer (id f2)
       {[ "date" := date f2; "nomFormateur" := nomFormateur f2 ]} now).

Definition creer (id' nom' : string) (dureeEnHeures' : Z) (now : string) : t :=
  let formation :=
    new {[ "id" := VString id'; "nom" := VString nom';
           "dureeEnHeures" := VNumber dureeEnHeures' ]} in
  push formation
    (FormationCreee_creer (id formation)
       {[ "id" := id formation; "nom" := nom formation;
          "dureeEnHeures" := dureeEnHeures formation ]} now).

Definition fromState (state : obj) : t :=
  new {[ "id" := get state "id";
         "nom" := get state "nom";
         "dureeEnHeures" := get state "dureeEnHeures";
         "date" := get state "date";
         "nomFormateur" := get state "nomFormateur" ]}.

End Formation.

(** ** FormationRepository *)

Module FormationRepository.

(** The comparator handed to [sort]. *)
Definition comparefn (prev cur : DomainEvent.t) : Z :=
  if String.ltb (DomainEvent.createdAt prev) (DomainEvent.createdAt cur)
  then (-1)%Z else 1%Z.

(** [.filter(e => e.aggregateId === id)] *)
Definition eventsForAggregate (id : string) (listed : list DomainEvent.t)
    : list DomainEvent.t :=
  List.filter (λ e, strict_eq (DomainEvent.aggregateId e) (VString id)) listed.

(** [.reduce((prev, cur) => ({ ...prev, ...cur }), {})] *)
Definition reduce (payloads : list obj) : obj :=
  fold_left spread payloads ∅.

(** The constant [state] of [getById], as a function of what
    [this.eventStore.list()] returned. *)
Definition state (id : string) (listed : list DomainEvent.t) : obj :=
  reduce
    (map DomainEvent.changes
       (ArraySort.sort comparefn (eventsForAggregate id listed))).

Definition getById (id : string) : M Formation.t :=
  listed ← InMemoryEventStore.list;
  mret (Formation.fromState (state id listed)).

Definition persist (f : Formation.t) : M Formation.t :=
  forEach (Formation.events f) (λ e, InMemoryEventStore.add e);;
  mret f.

End FormationRepository.

(** ** The store with object identity

    In the definitions above an event carries its [changes] by value.  In
    the program [changes] is a reference: [toState] and [fromState] copy
    the reference, never the object, so the records of the store, the
    instances [list] returns and the pending events of an aggregate may
    all point to one payload object.  [Heap] models the store at that
    level: objects live in a heap, [add] and [list] allocate the objects
    the program allocates, and [contents] reads the store back as the
    value-level [store]. *)
Module Heap.

Definition loc : Type := positive.

(** An [IEvent] object literal. *)
Record record : Type := mk_record {
  r_nom : string;
  r_changes : loc;
  r_createdAt : string;
  r_aggregateId : value
}.

(** A [DomainEvent] instance. *)
Record instance : Type := mk_instance {
  i_class : EventClass;
  i_aggregateId : value;
  i_createdAt : string;
  i_changes : loc
}.

Inductive cell : Type :=
| Payload (o : obj)
| Rec (r : record)
| Inst (e : instance)
| Arr (elems : list loc).

Abbreviation heap := (gmap loc cell).

(** Allocation of a new object. *)
Definition alloc (c : cell) (h : heap) : loc * heap :=
  let l := fresh (dom h) in (l, <[l := c]> h).

Definition toState (e : instance) : record :=
  {| r_nom := match i_class e with
              | FormationCreee => "FORMATION_CREEE"
              | FormationPlanifiee => "FORMATION_PLANIFIEE"
              end;
     r_aggregateId := i_aggregateId e;
     r_createdAt := i_createdAt e;
     r_changes := i_changes e |}.

Definition fromState (r : record) : result instance :=
  if String.eqb (r_nom r) "FORMATION_CREEE" then
    Ok (mk_instance FormationCreee (r_aggregateId r) (r_createdAt r) (r_changes r))
  else if String.eqb (r_nom r) "FORMATION_PLANIFIEE" then
    Ok (mk_instance FormationPlanifiee (r_aggregateId r) (r_createdAt r) (r_changes r))
  else Throw (Error "Type d'évènement inconnu").

(** The callback loop of [this.events.map(e => DomainEvent.fromState(e))]:
    one new instance per record, in index order.  [None] is a reference
    to an object of the wrong kind, which the program never makes. *)
Fixpoint map_fromState (records : list loc) (h : heap)
    : option (result (list loc) * heap) :=
  match records with
  | [] => Some (Ok [], h)
  | r :: records' =>
      match h !! r with
      | Some (Rec rec) =>
          match fromState rec with
          | Throw e => Some (Throw e, h)
          | Ok inst =>
              let '(i, h1) := alloc (Inst inst) h in
              match map_fromState records' h1 with
              | Some (Ok instances, h2) => Some (Ok (i :: instances), h2)
              | other => other
              end
          end
      | _ => None
      end
  end.

(** The store is identified by the location of its [events] array. *)
Module InMemoryEventStore.

Definition add (events event : loc) (h : heap) : option heap :=
  match h !! event, h !! events with
  | Some (Inst e), Some (Arr records) =>
      let '(r, h1) := alloc (Rec (toState e)) h in
      Some (<[events := Arr (records ++ [r])]> h1)
  | _, _ => None
  end.

Definition list (events : loc) (h : heap) : option (result loc * heap) :=
  match h !! events with
  | Some (Arr records) =>
      match map_fromState records h with
      | Some (Ok instances, h1) =>
          let '(a, h2) := alloc (Arr instances) h1 in Some (Ok a, h2)
      | Some (Throw e, h1) => Some (Throw e, h1)
      | None => None
      end
  | _ => None
  end.

End InMemoryEventStore.

(** Reading the heap back as values. *)
Definition payload_at (h : heap) (p : loc) : option obj :=
  match h !! p with
  | Some (Payload o) => Some o
  | _ => None
  end.

Definition record_at (h : heap) (r : loc) : option IEvent.t :=
  match h !! r with
  | Some (Rec rec) =>
      o ← payload_at h (r_changes rec);
      Some (IEvent.mk (r_nom rec) o (r_createdAt rec) (r_aggregateId rec))
  | _ => None
  end.

Definition instance_at (h : heap) (i : loc) : option DomainEvent.t :=
  match h !! i with
  | Some (Inst e) =>
      o ← payload_at h (i_changes e);
      Some (DomainEvent.mk (i_class e) (i_aggregateId e) (i_createdAt e) o)
  | _ => None
  end.

Definition elements (h : heap) (a : loc) : option (list loc) :=
  match h !! a with
  | Some (Arr elems) => Some elems
  | _ => None
  end.

(** What the store holds: its records, payloads read through. *)
Definition contents (h : heap) (events : loc) : option store :=
  records ← elements h events; mapM (record_at h) records.

(** What an array of event instances holds. *)
Definition instances (h : heap) (a : loc) : option (list DomainEvent.t) :=
  elems ← elements h a; mapM (instance_at h) elems.

(** The location of the payload an instance refers to. *)
Definition changes_of (h : heap) (i : loc) : option loc :=
  match h !! i with
  | Some (Inst e) => Some (i_changes e)
  | _ => None
  end.

(** The location of the payload a record refers to. *)
Definition changes_of_record (h : heap) (r : loc) : option loc :=
  match h !! r with
  | Some (Rec rec) => Some (r_changes rec)
  | _ => None
  end.

(** The assignment [o[k] = v] on the payload object at [p]. *)
Definition assign (p : loc) (k : string) (v : value) (h : heap) : heap :=
  match h !! p with
  | Some (Payload o) => <[p := Payload (<[k := v]> o)]> h
  | _ => h
  end.

(** [getById] with the arrays and objects it creates: [filter] and [map]
    return new arrays, [sort] reorders in place the array [filter]
    returned, [reduce] starts from a new empty object and creates one
    object per event.  The aggregate returned, whose fields are primitive
    values and whose [events] array is new and empty, is given by value. *)
Module FormationRepository.

(** [elems.filter(e => e.aggregateId === id)]: the references kept. *)
Fixpoint filter (id : string) (elems : list loc) (h : heap) : option (list loc) :=
  match elems with
  | [] => Some []
  | i :: elems' =>
      match h !! i with
      | Some (Inst e) =>
          kept ← filter id elems' h;
          Some (if strict_eq (i_aggregateId e) (VString id)
                then i :: kept else kept)
      | _ => None
      end
  end.

(** [e.createdAt] read through a reference to an event instance (the
    elements of the array sorted are instances: [filter] read them). *)
Definition createdAt (h : heap) (i : loc) : string :=
  match h !! i with
  | Some (Inst e) => i_createdAt e
  | _ => ""
  end.

Definition comparefn (h : heap) (prev cur : loc) : Z :=
  if String.ltb (createdAt h prev) (createdAt h cur) then (-1)%Z else 1%Z.

(** [b.sort(comparefn)]: the array at [b] is sorted in place. *)
Definition sort (b : loc) (h : heap) : option heap :=
  match h !! b with
  | Some (Arr elems) =>
      Some (<[b := Arr (ArraySort.sort (comparefn h) elems)]> h)
  | _ => None
  end.

(** The steps of [reduce] after the initial value: the accumulator [prev]
    and the element [cur] are spread into a new object. *)
Fixpoint reduce_from (payloads : list loc) (prev : loc) (h : heap)
    : option (loc * heap) :=
  match payloads with
  | [] => Some (prev, h)
  | cur :: payloads' =>
      match h !! prev, h !! cur with
      | Some (Payload o1), Some (Payload o2) =>
          let '(next, h1) := alloc (Payload (spread o1 o2)) h in
          reduce_from payloads' next h1
      | _, _ => None
      end
  end.

Definition reduce (payloads : list loc) (h : heap) : option (loc * heap) :=
  let '(initial, h0) := alloc (Payload ∅) h in
  reduce_from payloads initial h0.

Definition getById (events : loc) (id : string) (h : heap)
    : option (result Formation.t * heap) :=
  match InMemoryEventStore.list events h with
  | Some (Ok a, h1) =>
      listed ← elements h1 a;
      kept ← filter id listed h1;
      let '(b, h2) := alloc (Arr kept) h1 in
      h3 ← sort b h2;
      sorted ← elements h3 b;
      payloads ← mapM (changes_of h3) sorted;
      let '(c, h4) := alloc (Arr payloads) h3 in
      '(state, h5) ← reduce payloads h4;
      o ← payload_at h5 state;
      Some (Ok (Formation.fromState o), h5)
  | Some (Throw e, h1) => Some (Throw e, h1)
  | None => None
  end.

End FormationRepository.

End Heap.

(** The store reached from the empty one by appending [history] in order. *)
Definition store_after (history : list DomainEvent.t) : store :=
  snd (forEach history (λ e, InMemoryEventStore.add e) InMemoryEventStore.empty).

(** ** The store at run time, read at a clock

    The definitions above take a record as the interface [IEvent] types
    it: [createdAt] is a string, so the constructor that [fromState] calls
    never evaluates the right-hand side of
    [createdAt ?? (new Date()).toISOString()], and the clock is no input
    of [fromState], [list] and [getById].  At run time the types are
    erased: [fromState] hands [e.createdAt] to the constructor whatever it
    holds, and an object of the [events] array may lack the property.
    [Runtime] models the reads at that level.  A record's [createdAt] is a
    string or missing, and every read takes the clock as an argument: the
    reconstruction goes through [DomainEvent.new] with the record's
    [createdAt] as the optional argument and the clock as the clock.
    [fromState_typed], [list_typed] and [getById_typed] show that on the
    records that carry a [createdAt], which are all the records [add]
    writes, these reads return what the definitions above return, whatever
    the clock reads.  A [createdAt] that is neither a string nor missing
    is not modelled. *)
Module Runtime.

(** An object of the [events] array.  [r_createdAt] is [None] when the
    property is missing or holds [undefined] or [null], the values for
    which [??] takes its right-hand side. *)
Record record : Type := mk_record {
  r_nom : string;
  r_changes : obj;
  r_createdAt : option string;
  r_aggregateId : value
}.

Abbreviation store := (list record).

(** A record typed as [IEvent], as an object of the array. *)
Definition typed (e : IEvent.t) : record :=
  {| r_nom := IEvent.nom e;
     r_aggregateId := IEvent.aggregateId e;
     r_createdAt := Some (IEvent.createdAt e);
     r_changes := IEvent.changes e |}.

(** [DomainEvent.toState]: the object literal it returns always has the
    property [createdAt], read from the instance. *)
Definition toState (e : DomainEvent.t) : record :=
  {| r_nom := DomainEvent.nom e;
     r_aggregateId := DomainEvent.aggregateId e;
     r_createdAt := Some (DomainEvent.createdAt e);
     r_changes := DomainEvent.changes e |}.

(** [DomainEvent.fromState(e)], evaluated when the clock reads [now]. *)
Definition fromState (e : record) (now : string) : result DomainEvent.t :=
  if String.eqb (r_nom e) "FORMATION_CREEE" then
    Ok (DomainEvent.new FormationCreee (r_aggregateId e) (r_changes e)
          (r_createdAt e) now)
  else if String.eqb (r_nom e) "FORMATION_PLANIFIEE" then
    Ok (DomainEvent.new FormationPlanifiee (r_aggregateId e) (r_changes e)
          (r_createdAt e) now)
  else Throw (Error "Type d'évènement inconnu").

(** [Array.prototype.map] with a callback that may throw, the callback
    being given the index of the element it runs on. *)
Fixpoint mapi_result {A B : Type} (f : nat → A → result B) (l : list A)
    : result (list B) :=
  match l with
  | [] => Ok []
  | x :: xs =>
      match f 0%nat x with
      | Throw e => Throw e
      | Ok y =>
          match mapi_result (λ i, f (S i)) xs with
          | Throw e => Throw e
          | Ok ys => Ok (y :: ys)
          end
      end
  end.

Module InMemoryEventStore.

Definition add (event : DomainEvent.t) (events : store) : result unit * store :=
  (Ok tt, events ++ [toState event]).

(** The callback of [map] runs once per record, in index order, and time
    passes between two runs: [clock i] is what the clock reads while the
    callback runs on the record of index [i]. *)
Definition list (clock : nat → string) (events : store)
    : result (list DomainEvent.t) * store :=
  (mapi_result (λ i e, fromState e (clock i)) events, events).

End InMemoryEventStore.

Module FormationRepository.

(** The filter, the sort and the fold are those of
    [FormationRepository.state] above; the clock is the one of the call
    of [list]. *)
Definition getById (id : string) (clock : nat → string) (events : store)
    : result Formation.t * store :=
  match InMemoryEventStore.list clock events with
  | (Ok listed, events') =>
      (Ok (Formation.fromState (FormationRepository.state id listed)), events')
  | (Throw e, events') => (Throw e, events')
  end.

End FormationRepository.

(** The store reached from the empty one by the calls [add e] for the
    events [e] of [history], in order. *)
Definition store_after (history : list DomainEvent.t) : store :=
  fold_left (λ events e, snd (InMemoryEventStore.add e events)) history [].

(** The record carries one of the two tags [fromState] knows. *)
Definition known_tag (r : record) : bool :=
  String.eqb (r_nom r) "FORMATION_CREEE"
  || String.eqb (r_nom r) "FORMATION_PLANIFIEE".

(** The record has the property [createdAt]. *)
Definition has_createdAt (r : record) : Prop := is_Some (r_createdAt r).

(** The record [r] with [createdAt] set to [now] if it had none. *)
Definition stamp (now : string) (r : record) : record :=
  {| r_nom := r_nom r;
     r_aggregateId := r_aggregateId r;
     r_createdAt := Some (default now (r_createdAt r));
     r_changes := r_changes r |}.

(** The records of [s], each one without [createdAt] stamped with what
    the clock reads when [list] reaches it. *)
Definition stamped_by (clock : nat → string) (s : store) : store :=
  imap (λ i r, stamp (clock i) r) s.

End Runtime.

(** ** The demo driver *)

(** The function [planifierFormationFn] returns, from the point where its
    delay has elapsed: the aggregate it was given is scheduled with the
    instructor 'SRE' and persisted.  The delay only decides when this
    runs; [now] is the clock at that time. *)
Definition planifierFormation (f : Formation.t) (date now : string)
    : M Formation.t :=
  FormationRepository.persist (Formation.planifierLe f date "SRE" now).

(** ** Vocabulary of the properties *)

(** [a] is not later than [b]: the comparison [b < a] on strings is false. *)
Definition not_later (a b : string) : Prop := String.ltb b a = false.

(** Ascending by [createdAt]. *)
Definition ascending (l : list DomainEvent.t) : Prop :=
  StronglySorted
    (λ x y, not_later (DomainEvent.createdAt x) (DomainEvent.createdAt y)) l.

(** The events of [l] for aggregate [id], in the order of [l]. *)
Definition of_aggregate (id : string) (l : list DomainEvent.t) : list DomainEvent.t :=
  filter (λ e, DomainEvent.aggregateId e = VString id) l.

(** The events of [l] stamped [t], in the order of [l]. *)
Definition stamped (t : string) (l : list DomainEvent.t) : list DomainEvent.t :=
  filter (λ e, DomainEvent.createdAt e = t) l.

(** Last write wins: the value the last event of [l] that has key [k]
    gives to [k], if any event has it. *)
Definition last_write (k : string) (l : list DomainEvent.t) : option value :=
  last (omap (λ e, DomainEvent.changes e !! k) l).

(** [now] is not earlier than any event [l] holds for aggregate [id]. *)
Definition clock_not_behind (now id : string) (l : list DomainEvent.t) : Prop :=
  Forall (λ e, not_later (DomainEvent.createdAt e) now) (of_aggregate id l).

(** [e] has the key [k] in its payload. *)
Definition writes (k : string) (e : DomainEvent.t) : Prop :=
  is_Some (DomainEvent.changes e !! k).

(** One step of a single pass over the log, in append order, looking for
    the event that decides key [k]: an event that has the key replaces the
    current one unless it is stamped strictly earlier. *)
Definition overtakes (k : string) (best : option DomainEvent.t)
    (e : DomainEvent.t) : option DomainEvent.t :=
  if decide (writes k e) then
    match best with
    | None => Some e
    | Some b =>
        if String.ltb (DomainEvent.createdAt e) (DomainEvent.createdAt b)
        then Some b else Some e
    end
  else best.

Definition winner (k : string) (l : list DomainEvent.t) : option DomainEvent.t :=
  fold_left (overtakes k) l None.

(** A call of [planifierLe]: its two arguments and the clock at the call. *)
Record Appel : Type := mk_appel {
  a_date : string;
  a_nomFormateur : string;
  a_now : string
}.

(** The calls [calls] of [planifierLe], in order, on the aggregate [f]. *)
Definition planifier (f : Formation.t) (calls : list Appel) : Formation.t :=
  fold_left
    (λ f c, Formation.planifierLe f (a_date c) (a_nomFormateur c) (a_now c))
    calls f.

(** The event a call of [planifierLe] on an aggregate of id [id] emits. *)
Definition planifiee (id : value) (c : Appel) : DomainEvent.t :=
  DomainEvent.mk FormationPlanifiee id (a_now c)
    {[ "date" := VString (a_date c);
       "nomFormateur" := VString (a_nomFormateur c) ]}.

(** The event [creer] emits. *)
Definition creee (id nom : string) (dureeEnHeures : Z) (now : string)
    : DomainEvent.t :=
  DomainEvent.mk FormationCreee (VString id) now
    {[ "id" := VString id; "nom" := VString nom;
       "dureeEnHeures" := VNumber dureeEnHeures ]}.

(** An aggregate without its pending events. *)
Definition committed (f : Formation.t) : Formation.t :=
  Formation.mk (Formation.id f) (Formation.nom f) (Formation.dureeEnHeures f)
    (Formation.date f) (Formation.nomFormateur f) [].

(** The record carries one of the two tags [fromState] knows. *)
Definition known_tag (r : IEvent.t) : bool :=
  String.eqb (IEvent.nom r) "FORMATION_CREEE"
  || String.eqb (IEvent.nom r) "FORMATION_PLANIFIEE".

(** What the record at [r] reads, once [k] has been set to [v] in the
    payload object at [p], if it read [rv] before: the same with the key
    set when the payload of the record is that object, [rv] otherwise. *)
Definition read_after_assign (h : Heap.heap) (p : Heap.loc) (k : string)
    (v : value) (r : Heap.loc) (rv : IEvent.t) : IEvent.t :=
  if decide (Heap.changes_of_record h r = Some p)
  then IEvent.mk (IEvent.nom rv) (<[k := v]> (IEvent.changes rv))
         (IEvent.createdAt rv) (IEvent.aggregateId rv)
  else rv.

(** ** Scenarios *)

(** Three events of one aggregate, appended in the order E1, E2, E3 with
    timestamps 1, 3, 2. *)
Module FoldOrdering.
Definition E1 : DomainEvent.t :=
  DomainEvent.mk FormationCreee (VString "F") "1" {[ "a" := VNumber 1 ]}.
Definition E2 : DomainEvent.t :=
  DomainEvent.mk FormationPlanifiee (VString "F") "3"
    {[ "a" := VNumber 2; "b" := VNumber 1 ]}.
Definition E3 : DomainEvent.t :=
  DomainEvent.mk FormationPlanifiee (VString "F") "2" {[ "b" := VNumber 2 ]}.
End FoldOrdering.

(** Two instances of one aggregate are loaded; the first is scheduled at
    [t1], the second at the later [t2]; the second is persisted, then the
    first; the aggregate is reloaded. *)
Module Race.
Definition t0 : string := "2021-01-01T00:00:00.000Z".
Definition t1 : string := "2021-01-02T00:00:00.000Z".
Definition t2 : string := "2021-01-03T00:00:00.000Z".

Definition run : M Formation.t :=
  FormationRepository.persist (Formation.creer "X" "Name" 10 t0);;
  a ← FormationRepository.getById "X";
  b ← FormationRepository.getById "X";
  let a' := Formation.planifierLe a "2021-05-01" "Alice" t1 in
  let b' := Formation.planifierLe b "2021-06-01" "Bob" t2 in
  FormationRepository.persist b';;
  FormationRepository.persist a';;
  FormationRepository.getById "X".
End Race.

(** A store to which one event, whose payload is {a: 1}, has been added. *)
Module Shared.
Definition events : Heap.loc := 1%positive.
Definition payload : Heap.loc := 2%positive.
Definition event : Heap.loc := 3%positive.

Definition created : DomainEvent.t :=
  DomainEvent.mk FormationCreee (VString "X") "2021-01-01T00:00:00.000Z"
    {[ "a" := VNumber 1 ]}.

(** The heap before [add]: the empty [events] array of the store, the
    payload and the event instance that refers to it. *)
Definition h0 : Heap.heap :=
  {[ events := Heap.Arr [];
     payload := Heap.Payload {[ "a" := VNumber 1 ]};
     event := Heap.Inst
                (Heap.mk_instance FormationCreee (VString "X")
                   "2021-01-01T00:00:00.000Z" payload) ]}.

(** The heap after [store.add(event)]. *)
Definition h1 : Heap.heap :=
  default h0 (Heap.InMemoryEventStore.add events event h0).
End Shared.

(** The store of [Race] once the three events are in it, with object
    identity: the creation, the schedule stamped [t2], then the schedule
    stamped [t1]. *)
Module RaceHeap.
Definition events : Heap.loc := 1%positive.

Definition created : DomainEvent.t :=
  DomainEvent.mk FormationCreee (VString "X") Race.t0
    {[ "id" := VString "X"; "nom" := VString "Name";
       "dureeEnHeures" := VNumber 10 ]}.
Definition bob : DomainEvent.t :=
  DomainEvent.mk FormationPlanifiee (VString "X") Race.t2
    {[ "date" := VString "2021-06-01"; "nomFormateur" := VString "Bob" ]}.
Definition alice : DomainEvent.t :=
  DomainEvent.mk FormationPlanifiee (VString "X") Race.t1
    {[ "date" := VString "2021-05-01"; "nomFormateur" := VString "Alice" ]}.

(** The empty store, the three payloads and the three event instances. *)
Definition h0 : Heap.heap :=
  {[ events := Heap.Arr [];
     2%positive := Heap.Payload (DomainEvent.changes created);
     3%positive := Heap.Payload (DomainEvent.changes bob);
     4%positive := Heap.Payload (DomainEvent.changes alice);
     5%positive := Heap.Inst (Heap.mk_instance FormationCreee (VString "X")
                                Race.t0 2%positive);
     6%positive := Heap.Inst (Heap.mk_instance FormationPlanifiee (VString "X")
                                Race.t2 3%positive);
     7%positive := Heap.Inst (Heap.mk_instance FormationPlanifiee (VString "X")
                                Race.t1 4%positive) ]}.

(** The heap after the three calls of [add]. *)
Definition h : Heap.heap :=
  default h0
    (h1 ← Heap.InMemoryEventStore.add events 5%positive h0;
     h2 ← Heap.InMemoryEventStore.add events 6%positive h1;
     Heap.InMemoryEventStore.add events 7%positive h2).
End RaceHeap.

(** * Properties *)

(** ** The order on timestamps *)

Lemma ascii_compare_refl (a : ascii) : Ascii.compare a a = Eq.
Proof. unfold Ascii.compare. apply N.compare_refl. Qed.

Lemma string_compare_refl (s : string) : String.compare s s = Eq.
Proof. induction s as [|a s IH]; simpl; [done|]. by rewrite ascii_compare_refl. Qed.

Lemma ascii_compare_lt_trans (a b c : ascii) :
  Ascii.compare a b = Lt → Ascii.compare b c = Lt → Ascii.compare a c = Lt.
Proof.
  unfold Ascii.compare. rewrite !N.compare_lt_iff. lia.
Qed.

Lemma string_compare_lt_trans (a b c : string) :
  String.compare a b = Lt → String.compare b c = Lt → String.compare a c = Lt.
Proof.
  revert b c. induction a as [|x a IH]; intros [|y b] [|z c]; simpl; try done.
  destruct (Ascii.compare x y) eqn:Exy; try done.
  - apply Ascii.compare_eq_iff in Exy as ->.
    destruct (Ascii.compare y z); try done. apply IH.
  - intros _. destruct (Ascii.compare y z) eqn:Eyz; try done.
    + apply Ascii.compare_eq_iff in Eyz as <-. by rewrite Exy.
    + by rewrite (ascii_compare_lt_trans _ _ _ Exy Eyz).
Qed.

Lemma ltb_irrefl (a : string) : String.ltb a a = false.
Proof. unfold String.ltb. by rewrite string_compare_refl. Qed.

Lemma ltb_trans (a b c : string) :
  String.ltb a b = true → String.ltb b c = true → String.ltb a c = true.
Proof.
  unfold String.ltb. intros Hab Hbc.
  destruct (String.compare a b) eqn:Eab; try done.
  destruct (String.compare b c) eqn:Ebc; try done.
  by rewrite (string_compare_lt_trans _ _ _ Eab Ebc).
Qed.

Lemma ltb_asym (a b : string) : String.ltb a b = true → String.ltb b a = false.
Proof.
  intros Hab. destruct (String.ltb b a) eqn:Hba; [|done].
  by rewrite <- (ltb_irrefl a), (ltb_trans _ _ _ Hab Hba).
Qed.

(** ** The sort of [getById] *)

Section SortByCreatedAt.
Import FormationRepository.

Local Abbreviation ts := DomainEvent.createdAt.
Local Abbreviation insert := (ArraySort.insert comparefn).
Local Abbreviation sort := (ArraySort.sort comparefn).

Lemma comparefn_neg (x y : DomainEvent.t) :
  (comparefn x y <? 0)%Z = String.ltb (ts x) (ts y).
Proof. unfold comparefn. by destruct (String.ltb _ _). Qed.

Lemma insert_perm (x : DomainEvent.t) (l : list DomainEvent.t) :
  insert x l ≡ₚ x :: l.
Proof.
  induction l as [|y ys IH]; simpl; [done|].
  destruct (comparefn x y <? 0)%Z; [done|].
  rewrite IH. apply Permutation_swap.
Qed.

Lemma insert_ascending (x : DomainEvent.t) (l : list DomainEvent.t) :
  ascending l → ascending (insert x l).
Proof.
  unfold ascending. induction 1 as [|y ys Hys IH Hy]; simpl.
  - repeat constructor.
  - rewrite comparefn_neg. destruct (String.ltb (ts x) (ts y)) eqn:Hxy.
    + constructor; [by constructor|]. constructor.
      * by apply ltb_asym.
      * eapply Forall_impl; [exact Hy|]. intros z Hyz. unfold not_later in *.
        destruct (String.ltb (ts z) (ts x)) eqn:Hzx; [|done].
        by rewrite (ltb_trans _ _ _ Hzx Hxy) in Hyz.
    + constructor; [done|].
      rewrite (insert_perm x ys). by constructor.
Qed.

Lemma stamped_cons (t : string) (x : DomainEvent.t) (l : list DomainEvent.t) :
  stamped t (x :: l) = if decide (ts x = t) then x :: stamped t l else stamped t l.
Proof. unfold stamped. by rewrite filter_cons. Qed.

Lemma stamped_app (t : string) (l1 l2 : list DomainEvent.t) :
  stamped t (l1 ++ l2) = stamped t l1 ++ stamped t l2.
Proof. apply filter_app. Qed.

Lemma stamped_nil_above (t : string) (y : DomainEvent.t) (ys : list DomainEvent.t) :
  ascending (y :: ys) → String.ltb t (ts y) = true → stamped t (y :: ys) = [].
Proof.
  intros Hasc Hty. apply StronglySorted_inv in Hasc as [_ Hy].
  assert (Hall : Forall (λ z, ts z ≠ t) (y :: ys)).
  { constructor.
    - intros <-. by rewrite ltb_irrefl in Hty.
    - eapply Forall_impl; [exact Hy|]. intros z Hyz <-.
      unfold not_later in Hyz. congruence. }
  induction Hall as [|z zs Hz _ IH]; [done|].
  rewrite stamped_cons. by case_decide.
Qed.

Lemma insert_stamped (t : string) (x : DomainEvent.t) (l : list DomainEvent.t) :
  ascending l → stamped t (insert x l) = stamped t l ++ stamped t [x].
Proof.
  induction l as [|y ys IH]; intros Hasc; simpl; [done|].
  rewrite comparefn_neg. destruct (String.ltb (ts x) (ts y)) eqn:Hxy.
  - rewrite (stamped_cons t x (y :: ys)), (stamped_cons t x []).
    case_decide as Ht.
    + subst t. by rewrite (stamped_nil_above _ _ _ Hasc Hxy).
    + by rewrite app_nil_r.
  - rewrite (stamped_cons t y (insert x ys)), (stamped_cons t y ys).
    rewrite IH by (by apply StronglySorted_inv in Hasc as [? _]).
    by case_decide.
Qed.

(** An element that nothing placed so far is later than goes last. *)
Lemma insert_last (x : DomainEvent.t) (l : list DomainEvent.t) :
  Forall (λ y, not_later (ts y) (ts x)) l → insert x l = l ++ [x].
Proof.
  induction 1 as [|y ys Hy _ IH]; simpl; [done|].
  rewrite comparefn_neg. unfold not_later in Hy. by rewrite Hy, IH.
Qed.

Lemma fold_insert_spec (l acc : list DomainEvent.t) :
  ascending acc →
  let r := fold_left (λ placed x, insert x placed) l acc in
  r ≡ₚ acc ++ l ∧ ascending r ∧ ∀ t, stamped t r = stamped t acc ++ stamped t l.
Proof.
  revert acc. induction l as [|x xs IH]; intros acc Hacc; simpl.
  - split_and!; [by rewrite app_nil_r|done|]. intros t. by rewrite app_nil_r.
  - destruct (IH (insert x acc) (insert_ascending x acc Hacc)) as (Hp & Ha & Hs).
    split_and!; [|done|].
    + rewrite Hp, insert_perm. simpl. apply Permutation_middle.
    + intros t. rewrite Hs, insert_stamped by done.
      rewrite <- app_assoc. f_equal. by rewrite <- stamped_app.
Qed.

Lemma sort_spec (l : list DomainEvent.t) :
  sort l ≡ₚ l ∧ ascending (sort l) ∧ ∀ t, stamped t (sort l) = stamped t l.
Proof.
  apply (fold_insert_spec l []). constructor.
Qed.

Lemma sort_snoc (l : list DomainEvent.t) (x : DomainEvent.t) :
  sort (l ++ [x]) = insert x (sort l).
Proof. unfold ArraySort.sort. by rewrite fold_left_app. Qed.

Lemma not_later_antisym (a b : string) :
  not_later a b → not_later b a → a = b.
Proof.
  unfold not_later, String.ltb. intros Hba Hab.
  apply String.compare_eq_iff. rewrite String.compare_antisym in Hba.
  by destruct (String.compare a b).
Qed.

(** An arrangement that is ascending and keeps the events of each
    timestamp in a given order is the only one. *)
Lemma ascending_stable_unique (l1 l2 : list DomainEvent.t) :
  ascending l1 → ascending l2 →
  (∀ t, stamped t l1 = stamped t l2) →
  l1 = l2.
Proof.
  revert l2. induction l1 as [|x l1 IH]; intros l2 H1 H2 Hst.
  - destruct l2 as [|y l2]; [done|].
    specialize (Hst (ts y)). rewrite stamped_cons in Hst.
    by rewrite decide_True in Hst.
  - destruct l2 as [|y l2].
    { specialize (Hst (ts x)). rewrite stamped_cons in Hst.
      by rewrite decide_True in Hst. }
    apply StronglySorted_inv in H1 as [H1 Hx], H2 as [H2 Hy].
    assert (Hin : ∀ (z : DomainEvent.t) (l l' : list DomainEvent.t),
      (∀ t, stamped t (z :: l) = stamped t l') → z ∈ l').
    { intros z l l' H. specialize (H (ts z)).
      rewrite stamped_cons, decide_True in H by done.
      assert (Hz : z ∈ stamped (ts z) l') by (rewrite <- H; left).
      unfold stamped in Hz. by apply list_elem_of_filter in Hz as [_ ?]. }
    assert (Hxy : ts x = ts y).
    { apply not_later_antisym.
      - assert (Hyin : y ∈ x :: l1) by (by apply (Hin y l2)).
        apply elem_of_cons in Hyin as [->|Hyin]; [apply ltb_irrefl|].
        by eapply Forall_forall in Hx.
      - assert (Hxin : x ∈ y :: l2) by (by apply (Hin x l1)).
        apply elem_of_cons in Hxin as [->|Hxin]; [apply ltb_irrefl|].
        by eapply Forall_forall in Hy. }
    assert (x = y) as ->.
    { specialize (Hst (ts x)). rewrite !stamped_cons in Hst.
      rewrite decide_True in Hst by done.
      rewrite decide_True in Hst by done. congruence. }
    f_equal. apply IH; [done..|].
    intros t. specialize (Hst t). rewrite !stamped_cons in Hst.
    destruct (decide (ts y = t)); congruence.
Qed.

End SortByCreatedAt.

(** ** Events and the store *)

Lemma fromState_toState (e : DomainEvent.t) :
  DomainEvent.fromState (DomainEvent.toState e) = Ok e.
Proof. by destruct e as [[] ? ? ?]. Qed.

Lemma map_result_fromState_toState (l : list DomainEvent.t) :
  map_result DomainEvent.fromState (map DomainEvent.toState l) = Ok l.
Proof.
  induction l as [|e l IH]; simpl; [done|].
  by rewrite fromState_toState, IH.
Qed.

Lemma forEach_add (l : list DomainEvent.t) (s : store) :
  forEach l (λ e, InMemoryEventStore.add e) s
  = (Ok tt, s ++ map DomainEvent.toState l).
Proof.
  revert s. induction l as [|e l IH]; intros s; simpl.
  - by rewrite app_nil_r.
  - unfold mbind, M_bind, InMemoryEventStore.add at 1.
    by rewrite IH, <- app_assoc.
Qed.

Lemma store_after_map (history : list DomainEvent.t) :
  store_after history = map DomainEvent.toState history.
Proof. unfold store_after. by rewrite forEach_add. Qed.

Lemma list_store_after (history : list DomainEvent.t) :
  InMemoryEventStore.list (store_after history)
  = (Ok history, store_after history).
Proof.
  unfold InMemoryEventStore.list.
  by rewrite store_after_map, map_result_fromState_toState.
Qed.

Lemma persist_run (f : Formation.t) (s : store) :
  FormationRepository.persist f s
  = (Ok f, s ++ map DomainEvent.toState (Formation.events f)).
Proof.
  unfold FormationRepository.persist, mbind, M_bind. by rewrite forEach_add.
Qed.

Lemma persist_store_after (f : Formation.t) (history : list DomainEvent.t) :
  FormationRepository.persist f (store_after history)
  = (Ok f, store_after (history ++ Formation.events f)).
Proof. by rewrite persist_run, !store_after_map, map_app. Qed.

Lemma getById_run (id : string) (s : store) :
  FormationRepository.getById id s
  = (match InMemoryEventStore.list s with
     | (Ok listed, _) =>
         Ok (Formation.fromState (FormationRepository.state id listed))
     | (Throw e, _) => Throw e
     end, s).
Proof.
  unfold FormationRepository.getById, mbind, M_bind, InMemoryEventStore.list.
  by destruct (map_result DomainEvent.fromState s).
Qed.

Lemma getById_store_after (id : string) (history : list DomainEvent.t) :
  FormationRepository.getById id (store_after history)
  = (Ok (Formation.fromState (FormationRepository.state id history)),
     store_after history).
Proof. by rewrite getById_run, list_store_after. Qed.

(** ** Reads at a clock *)

Lemma fromState_toState_at (e : DomainEvent.t) (now : string) :
  Runtime.fromState (Runtime.toState e) now = Ok e.
Proof. by destruct e as [[] ? ? ?]. Qed.

Lemma toState_typed (e : DomainEvent.t) :
  Runtime.toState e = Runtime.typed (DomainEvent.toState e).
Proof. done. Qed.

Lemma fromState_typed (r : IEvent.t) (now : string) :
  Runtime.fromState (Runtime.typed r) now = DomainEvent.fromState r.
Proof. done. Qed.

Lemma mapi_result_typed (clock : nat → string) (s : store) :
  Runtime.mapi_result (λ i e, Runtime.fromState e (clock i)) (map Runtime.typed s)
  = map_result DomainEvent.fromState s.
Proof.
  revert clock. induction s as [|r s IH]; intros clock; simpl; [done|].
  rewrite fromState_typed. destruct (DomainEvent.fromState r); [|done].
  by rewrite (IH (λ i, clock (S i))).
Qed.

Lemma list_typed (clock : nat → string) (s : store) :
  Runtime.InMemoryEventStore.list clock (map Runtime.typed s)
  = (fst (InMemoryEventStore.list s), map Runtime.typed s).
Proof. unfold Runtime.InMemoryEventStore.list, InMemoryEventStore.list. by rewrite mapi_result_typed. Qed.

Lemma getById_typed (id : string) (clock : nat → string) (s : store) :
  Runtime.FormationRepository.getById id clock (map Runtime.typed s)
  = (fst (FormationRepository.getById id s), map Runtime.typed s).
Proof.
  unfold Runtime.FormationRepository.getById. rewrite list_typed, getById_run.
  unfold InMemoryEventStore.list. simpl.
  by destruct (map_result DomainEvent.fromState s).
Qed.

Lemma fold_add (history : list DomainEvent.t) (s : Runtime.store) :
  fold_left (λ events e, snd (Runtime.InMemoryEventStore.add e events)) history s
  = s ++ map Runtime.toState history.
Proof.
  revert s. induction history as [|e l IH]; intros s; simpl.
  - by rewrite app_nil_r.
  - by rewrite IH, <- app_assoc.
Qed.

Lemma store_after_toState (history : list DomainEvent.t) :
  Runtime.store_after history = map Runtime.toState history.
Proof. unfold Runtime.store_after. by rewrite fold_add. Qed.

Lemma store_after_typed (history : list DomainEvent.t) :
  Runtime.store_after history = map Runtime.typed (store_after history).
Proof.
  rewrite store_after_toState, store_after_map, map_map.
  apply map_ext. intros e. apply toState_typed.
Qed.

Lemma fromState_at_known (r : Runtime.record) (now : string) :
  Runtime.known_tag r = true →
  ∃ e, Runtime.fromState r now = Ok e
       ∧ Runtime.toState e = Runtime.stamp now r
       ∧ DomainEvent.aggregateId e = Runtime.r_aggregateId r
       ∧ DomainEvent.changes e = Runtime.r_changes r
       ∧ DomainEvent.createdAt e = default now (Runtime.r_createdAt r).
Proof.
  unfold Runtime.known_tag, Runtime.fromState, Runtime.stamp.
  destruct r as [nom ch ts agg]. simpl.
  destruct (String.eqb_spec nom "FORMATION_CREEE") as [->|_].
  - intros _. by eexists.
  - destruct (String.eqb_spec nom "FORMATION_PLANIFIEE") as [->|_]; [|done].
    intros _. by eexists.
Qed.

Lemma fromState_at_unknown (r : Runtime.record) (now : string) :
  Runtime.known_tag r = false →
  Runtime.fromState r now = Throw (Error "Type d'évènement inconnu").
Proof.
  unfold Runtime.known_tag, Runtime.fromState. intros H.
  apply orb_false_iff in H as [-> ->]. done.
Qed.

Lemma fromState_at_Ok_inv (r : Runtime.record) (now : string) (e : DomainEvent.t) :
  Runtime.fromState r now = Ok e →
  Runtime.known_tag r = true ∧ Runtime.toState e = Runtime.stamp now r.
Proof.
  intros H. destruct (Runtime.known_tag r) eqn:Hk.
  - destruct (fromState_at_known r now Hk) as (e' & He' & Hr & _).
    split; [done|congruence].
  - by rewrite (fromState_at_unknown r now Hk) in H.
Qed.

Lemma list_at_Ok (clock : nat → string) (s : Runtime.store)
    (listed : list DomainEvent.t) :
  Runtime.mapi_result (λ i e, Runtime.fromState e (clock i)) s = Ok listed →
  map Runtime.toState listed = Runtime.stamped_by clock s
  ∧ forallb Runtime.known_tag s = true.
Proof.
  unfold Runtime.stamped_by.
  revert clock listed. induction s as [|r s IH]; intros clock listed; simpl.
  - by intros [= <-].
  - destruct (Runtime.fromState r (clock 0%nat)) as [e|] eqn:He; [|done].
    destruct (Runtime.mapi_result _ s) as [l|] eqn:Hl; [|done].
    intros [= <-]. destruct (fromState_at_Ok_inv r _ e He) as [Hk Hr].
    destruct (IH (λ i, clock (S i)) l Hl) as [Hm Hf].
    simpl. by rewrite Hk, Hf, Hr, Hm.
Qed.

Lemma list_at_known (clock : nat → string) (s : Runtime.store) :
  forallb Runtime.known_tag s = true →
  ∃ listed, Runtime.mapi_result (λ i e, Runtime.fromState e (clock i)) s = Ok listed.
Proof.
  revert clock. induction s as [|r s IH]; intros clock H; simpl; [by eexists|].
  simpl in H. apply andb_true_iff in H as [Hr Hs].
  destruct (fromState_at_known r (clock 0%nat) Hr) as (e & -> & _).
  destruct (IH (λ i, clock (S i)) Hs) as (l & ->). by eexists.
Qed.

Lemma stamp_fixed (now : string) (r : Runtime.record) :
  Runtime.stamp now r = r ↔ Runtime.has_createdAt r.
Proof.
  unfold Runtime.stamp, Runtime.has_createdAt.
  destruct r as [nom ch [ts|] agg]; simpl; split.
  - by eexists.
  - done.
  - intros [=].
  - by intros [? [=]].
Qed.

Lemma stamped_by_fixed (clock : nat → string) (s : Runtime.store) :
  Runtime.stamped_by clock s = s ↔ Forall Runtime.has_createdAt s.
Proof.
  unfold Runtime.stamped_by.
  revert clock. induction s as [|r s IH]; intros clock; simpl.
  - split; [constructor|done].
  - split.
    + intros [= Hr Hs]. constructor.
      * by apply (stamp_fixed (clock 0%nat)).
      * by apply (IH (λ i, clock (S i))).
    + intros H. apply Forall_cons in H as [Hr Hs]. f_equal.
      * by apply stamp_fixed.
      * by apply (IH (λ i, clock (S i))).
Qed.

Lemma list_at_any_clock (clock clock' : nat → string) (s : Runtime.store) :
  Forall Runtime.has_createdAt s →
  Runtime.mapi_result (λ i e, Runtime.fromState e (clock i)) s
  = Runtime.mapi_result (λ i e, Runtime.fromState e (clock' i)) s.
Proof.
  revert clock clock'. induction s as [|r s IH]; intros clock clock' H; simpl; [done|].
  apply Forall_cons in H as [[ts Hr] Hs].
  assert (Runtime.fromState r (clock 0%nat) = Runtime.fromState r (clock' 0%nat)) as ->.
  { unfold Runtime.fromState, DomainEvent.new. by rewrite Hr. }
  by rewrite (IH (λ i, clock (S i)) (λ i, clock' (S i)) Hs).
Qed.

(** ** The filter and the fold of [getById] *)

Lemma eventsForAggregate_of_aggregate (id : string) (l : list DomainEvent.t) :
  FormationRepository.eventsForAggregate id l = of_aggregate id l.
Proof.
  unfold FormationRepository.eventsForAggregate, of_aggregate, strict_eq.
  induction l as [|e l IH]; simpl; [done|].
  rewrite filter_cons, IH. by case_bool_decide; case_decide.
Qed.

Lemma fold_spread_lookup (payloads : list obj) (acc : obj) (k : string) :
  fold_left spread payloads acc !! k
  = match last (omap (λ p : obj, p !! k) payloads) with
    | Some v => Some v
    | None => acc !! k
    end.
Proof.
  induction payloads as [|p ps IH] using rev_ind; [done|].
  rewrite fold_left_app, omap_app. simpl. unfold spread at 1.
  rewrite lookup_union, IH. destruct (p !! k) as [v|]; simpl.
  - rewrite last_snoc. by destruct (last _), (acc !! k).
  - rewrite app_nil_r. by destruct (last _), (acc !! k).
Qed.

Lemma reduce_lookup (l : list DomainEvent.t) (k : string) :
  FormationRepository.reduce (map DomainEvent.changes l) !! k = last_write k l.
Proof.
  unfold FormationRepository.reduce, last_write.
  rewrite fold_spread_lookup, lookup_empty.
  replace (omap (λ p : obj, p !! k) (map DomainEvent.changes l))
    with (omap (λ e, DomainEvent.changes e !! k) l).
  - by destruct (last _).
  - induction l as [|e l IH]; [done|].
    rewrite (omap_app _ [e] l), IH. symmetry.
    apply (omap_app _ [DomainEvent.changes e]).
Qed.

(** ** Rehydration *)

Lemma fromState_fields (st : obj) :
  Formation.fromState st
  = Formation.mk (get st "id") (get st "nom") (get st "dureeEnHeures")
      (coalesce (get st "date") VNull)
      (coalesce (get st "nomFormateur") VNull) [].
Proof. done. Qed.

(** The aggregate [getById] returns when no event matches. *)
Lemma fromState_empty :
  Formation.fromState ∅
  = Formation.mk VUndefined VUndefined VUndefined VNull VNull [].
Proof. reflexivity. Qed.

(** ** Appending an event that is not earlier than the recorded ones *)

Lemma of_aggregate_snoc (id : string) (l : list DomainEvent.t) (e : DomainEvent.t) :
  DomainEvent.aggregateId e = VString id →
  of_aggregate id (l ++ [e]) = of_aggregate id l ++ [e].
Proof.
  intros He. unfold of_aggregate. rewrite filter_app. f_equal.
  by rewrite filter_cons_True.
Qed.

Lemma state_snoc_latest (id : string) (l : list DomainEvent.t) (e : DomainEvent.t) :
  DomainEvent.aggregateId e = VString id →
  clock_not_behind (DomainEvent.createdAt e) id l →
  FormationRepository.state id (l ++ [e])
  = spread (FormationRepository.state id l) (DomainEvent.changes e).
Proof.
  intros He Hclock. unfold FormationRepository.state.
  rewrite !eventsForAggregate_of_aggregate, of_aggregate_snoc by done.
  rewrite sort_snoc, insert_last.
  - rewrite map_app. unfold FormationRepository.reduce.
    by rewrite fold_left_app.
  - destruct (sort_spec (of_aggregate id l)) as (Hperm & _).
    by rewrite Hperm.
Qed.

Lemma fromState_spread_schedule (st : obj) (date nomFormateur : string) :
  Formation.fromState
    (spread st {[ "date" := VString date; "nomFormateur" := VString nomFormateur ]})
  = Formation.mk (Formation.id (Formation.fromState st))
      (Formation.nom (Formation.fromState st))
      (Formation.dureeEnHeures (Formation.fromState st))
      (VString date) (VString nomFormateur) [].
Proof.
  set (ch := ({[ "date" := VString date;
                 "nomFormateur" := VString nomFormateur ]} : obj)).
  assert (Hget : ∀ k, get (spread st ch) k
    = match ch !! k with Some v => v | None => get st k end).
  { intros k. unfold get, spread. rewrite lookup_union.
    by destruct (ch !! k), (st !! k). }
  rewrite !fromState_fields. cbn [Formation.id Formation.nom Formation.dureeEnHeures].
  rewrite !Hget.
  assert (Hid : ch !! "id" = None) by (by vm_compute).
  assert (Hnom : ch !! "nom" = None) by (by vm_compute).
  assert (Hduree : ch !! "dureeEnHeures" = None) by (by vm_compute).
  assert (Hdate : ch !! "date" = Some (VString date)) by (by vm_compute).
  assert (Hform : ch !! "nomFormateur" = Some (VString nomFormateur))
    by (by vm_compute).
  by rewrite Hid, Hnom, Hduree, Hdate, Hform.
Qed.

Lemma planifierLe_fields (f : Formation.t) (date nomFormateur now : string) :
  Formation.planifierLe f date nomFormateur now
  = Formation.mk (Formation.id f) (Formation.nom f) (Formation.dureeEnHeures f)
      (VString date) (VString nomFormateur)
      (Formation.events f
         ++ [DomainEvent.mk FormationPlanifiee (Formation.id f) now
               {[ "date" := VString date;
                  "nomFormateur" := VString nomFormateur ]}]).
Proof. done. Qed.

(** ** The store with object identity *)

Section HeapFacts.
Import Heap.

Lemma alloc_fresh (c : cell) (h : heap) :
  (fst (alloc c h) ∉ dom h)
  ∧ snd (alloc c h) = <[fst (alloc c h) := c]> h
  ∧ h ⊆ snd (alloc c h).
Proof.
  unfold alloc. simpl. split_and!; [apply is_fresh|done|].
  apply insert_subseteq, not_elem_of_dom, is_fresh.
Qed.

Lemma payload_at_weaken (h h' : heap) (p : loc) (o : obj) :
  h ⊆ h' → payload_at h p = Some o → payload_at h' p = Some o.
Proof.
  unfold payload_at. intros Hsub H.
  destruct (h !! p) as [c|] eqn:Hp; [|done].
  by rewrite (lookup_weaken _ _ _ _ Hp Hsub).
Qed.

Lemma record_at_weaken (h h' : heap) (r : loc) (rv : IEvent.t) :
  h ⊆ h' → record_at h r = Some rv → record_at h' r = Some rv.
Proof.
  unfold record_at. intros Hsub H.
  destruct (h !! r) as [c|] eqn:Hr; [|done].
  rewrite (lookup_weaken _ _ _ _ Hr Hsub). destruct c as [| rec | |]; try done.
  destruct (payload_at h (r_changes rec)) as [o|] eqn:Hp; [|done].
  by rewrite (payload_at_weaken _ _ _ _ Hsub Hp).
Qed.

Lemma instance_at_weaken (h h' : heap) (i : loc) (ev : DomainEvent.t) :
  h ⊆ h' → instance_at h i = Some ev → instance_at h' i = Some ev.
Proof.
  unfold instance_at. intros Hsub H.
  destruct (h !! i) as [c|] eqn:Hi; [|done].
  rewrite (lookup_weaken _ _ _ _ Hi Hsub). destruct c as [| | e |]; try done.
  destruct (payload_at h (i_changes e)) as [o|] eqn:Hp; [|done].
  by rewrite (payload_at_weaken _ _ _ _ Hsub Hp).
Qed.

Lemma changes_of_weaken (h h' : heap) (i p : loc) :
  h ⊆ h' → changes_of h i = Some p → changes_of h' i = Some p.
Proof.
  unfold changes_of. intros Hsub H.
  destruct (h !! i) as [c|] eqn:Hi; [|done].
  by rewrite (lookup_weaken _ _ _ _ Hi Hsub).
Qed.

Lemma records_weaken (h h' : heap) (records : list loc) (s : store) :
  h ⊆ h' → mapM (record_at h) records = Some s →
  mapM (record_at h') records = Some s.
Proof.
  rewrite !mapM_Some. intros Hsub H.
  eapply Forall2_impl; [exact H|]. intros r rv. by apply record_at_weaken.
Qed.

Lemma instances_weaken (h h' : heap) (elems : list loc) (l : list DomainEvent.t) :
  h ⊆ h' → mapM (instance_at h) elems = Some l →
  mapM (instance_at h') elems = Some l.
Proof.
  rewrite !mapM_Some. intros Hsub H.
  eapply Forall2_impl; [exact H|]. intros i ev. by apply instance_at_weaken.
Qed.

Lemma contents_weaken (h h' : heap) (events : loc) (s : store) :
  h ⊆ h' → contents h events = Some s → contents h' events = Some s.
Proof.
  unfold contents, elements. intros Hsub H.
  destruct (h !! events) as [c|] eqn:He; [|done].
  rewrite (lookup_weaken _ _ _ _ He Hsub). destruct c; try done.
  simpl in *. by eapply records_weaken.
Qed.

(** [fromState] on a record object and on the record read back agree. *)
Lemma fromState_record_at (h : heap) (r : loc) (rec : record) (rv : IEvent.t)
    (ev : DomainEvent.t) :
  h !! r = Some (Rec rec) →
  record_at h r = Some rv →
  DomainEvent.fromState rv = Ok ev →
  ∃ inst, fromState rec = Ok inst
    ∧ i_changes inst = r_changes rec
    ∧ payload_at h (r_changes rec) = Some (DomainEvent.changes ev)
    ∧ ev = DomainEvent.mk (i_class inst) (i_aggregateId inst) (i_createdAt inst)
             (DomainEvent.changes ev).
Proof.
  unfold record_at. intros Hr. rewrite Hr.
  destruct (payload_at h (r_changes rec)) as [o|]; [|done]. simpl.
  intros [= <-]. unfold DomainEvent.fromState, fromState. simpl.
  destruct (String.eqb (r_nom rec) "FORMATION_CREEE");
    [|destruct (String.eqb (r_nom rec) "FORMATION_PLANIFIEE")];
    intros [= <-]; eauto.
Qed.

(** The callback loop of [list]: one new instance per record, in order,
    each holding its record's payload reference. *)
Lemma map_fromState_spec (records : list loc) :
  ∀ (h : heap) (s : store) (listed : list DomainEvent.t),
    mapM (record_at h) records = Some s →
    map_result DomainEvent.fromState s = Ok listed →
    ∃ (elems : list loc) (h' : heap),
      map_fromState records h = Some (Ok elems, h')
      ∧ h ⊆ h'
      ∧ mapM (instance_at h') elems = Some listed
      ∧ Forall (λ i, i ∉ dom h) elems
      ∧ Forall2 (λ i r, ∃ p, changes_of h' i = Some p
                          ∧ changes_of_record h r = Some p) elems records.
Proof.
  induction records as [|r records IH]; intros h s listed Hs Hlisted.
  - apply mapM_Some in Hs. inversion Hs; subst. simpl in Hlisted.
    injection Hlisted as <-. exists [], h. by split_and!.
  - apply mapM_Some in Hs. inversion Hs as [|? rv ? s' Hr Hrest]; subst.
    apply mapM_Some in Hrest. simpl in Hlisted.
    destruct (DomainEvent.fromState rv) as [ev|] eqn:Hev; [|done].
    destruct (map_result DomainEvent.fromState s') as [listed'|] eqn:Hl'; [|done].
    injection Hlisted as <-.
    assert (Hcell : ∃ rec, h !! r = Some (Rec rec)).
    { unfold record_at in Hr. destruct (h !! r) as [[]|]; try done. eauto. }
    destruct Hcell as [rec Hcell].
    destruct (fromState_record_at h r rec rv ev Hcell Hr Hev)
      as (inst & Hinst & Hch & Hpay & Hevq).
    cbn [map_fromState]. rewrite Hcell, Hinst.
    destruct (alloc_fresh (Inst inst) h) as (Hfresh & Hh1 & Hsub1).
    destruct (alloc (Inst inst) h) as [i h1] eqn:Halloc. simpl in *.
    destruct (IH h1 s' listed' (records_weaken _ _ _ _ Hsub1 Hrest) Hl')
      as (elems & h' & Hloop & Hsub & Hinsts & Hnew & Hshare).
    rewrite Hloop. exists (i :: elems), h'.
    assert (Hi : h' !! i = Some (Inst inst)).
    { eapply lookup_weaken; [|exact Hsub]. subst h1. apply lookup_insert_eq. }
    split_and!.
    + done.
    + by etrans.
    + apply mapM_Some. constructor; [|by apply mapM_Some].
      unfold instance_at. rewrite Hi, Hch.
      rewrite (payload_at_weaken h h' _ _ (transitivity Hsub1 Hsub) Hpay).
      simpl. by rewrite Hevq at 2.
    + constructor; [done|].
      eapply Forall_impl; [exact Hnew|]. intros j Hj Hin. apply Hj.
      subst h1. rewrite dom_insert. set_solver.
    + constructor.
      * exists (r_changes rec). unfold changes_of, changes_of_record.
        by rewrite Hi, Hcell, Hch.
      * eapply Forall2_impl; [exact Hshare|]. intros j r' (p & Hj & Hr').
        exists p. split; [done|].
        unfold changes_of_record in *.
        destruct (h !! r') as [c|] eqn:Hc.
        -- by rewrite (lookup_weaken _ _ _ _ Hc Hsub1) in Hr'.
        -- assert (r' = i) as ->.
           { subst h1. destruct (decide (r' = i)); [done|].
             by rewrite lookup_insert_ne, Hc in Hr'. }
           subst h1. by rewrite lookup_insert_eq in Hr'.
Qed.

(** [add] at the level of objects appends to the store what [add] at the
    level of values appends: the heaps the program reaches hold the stores
    [store_after] describes. *)
Lemma add_contents (h : heap) (events event : loc) (s : store) (ev : DomainEvent.t) :
  contents h events = Some s →
  instance_at h event = Some ev →
  ∃ h', Heap.InMemoryEventStore.add events event h = Some h'
    ∧ contents h' events = Some (s ++ [DomainEvent.toState ev]).
Proof.
  intros Hcontents Hevent.
  assert (Hrecords : ∃ records, h !! events = Some (Arr records)
    ∧ mapM (record_at h) records = Some s).
  { unfold contents, elements in Hcontents.
    destruct (h !! events) as [[]|]; try done. eauto. }
  destruct Hrecords as (records & Hev & Hrecs).
  assert (Hinst : ∃ e o, h !! event = Some (Inst e)
    ∧ h !! i_changes e = Some (Payload o)
    ∧ ev = DomainEvent.mk (i_class e) (i_aggregateId e) (i_createdAt e) o).
  { unfold instance_at, payload_at in Hevent.
    destruct (h !! event) as [[| |e|]|]; try done.
    destruct (h !! i_changes e) as [[o| | |]|] eqn:Hp; try done.
    simpl in Hevent. injection Hevent as <-. eauto. }
  destruct Hinst as (e & o & He & Ho & ->).
  destruct (alloc_fresh (Rec (toState e)) h) as (Hfresh & Hh1 & _).
  unfold Heap.InMemoryEventStore.add. rewrite He, Hev.
  destruct (alloc (Rec (toState e)) h) as [r h1]. simpl in Hfresh, Hh1.
  subst h1. eexists. split; [done|].
  apply not_elem_of_dom in Hfresh.
  assert (Hkeep : ∀ l c, h !! l = Some c → (∀ xs, c ≠ Arr xs) →
    <[events := Arr (records ++ [r])]> (<[r := Rec (toState e)]> h) !! l = Some c).
  { intros l c Hl Hc.
    rewrite !lookup_insert_ne; [done|congruence|].
    intros <-. rewrite Hev in Hl. injection Hl as <-. by eapply Hc. }
  assert (Hrec : ∀ r0 rv, record_at h r0 = Some rv →
    record_at (<[events := Arr (records ++ [r])]> (<[r := Rec (toState e)]> h)) r0
    = Some rv).
  { intros r0 rv. unfold record_at, payload_at.
    destruct (h !! r0) as [[|rec| |]|] eqn:Hr0; try done.
    destruct (h !! r_changes rec) as [[o0| | |]|] eqn:Hp; try done.
    intros H. by rewrite (Hkeep _ _ Hr0), (Hkeep _ _ Hp). }
  unfold contents, elements. rewrite lookup_insert_eq. simpl.
  apply mapM_Some, Forall2_app.
  - apply mapM_Some in Hrecs. eapply Forall2_impl; [exact Hrecs|]. exact Hrec.
  - constructor; [|constructor].
    unfold record_at, payload_at.
    rewrite lookup_insert_ne, lookup_insert_eq by congruence.
    change (r_changes (toState e)) with (i_changes e).
    rewrite (Hkeep _ _ Ho) by done. simpl.
    by destruct e as [[] ? ? ?].
Qed.

(** [list]: a new array of new instances, the events of the records in
    order, each with its record's payload reference; nothing that existed
    is changed. *)
Lemma list_spec (h : heap) (events : loc) (history : list DomainEvent.t) :
  contents h events = Some (store_after history) →
  ∃ (a : loc) (h' : heap) (elems records : list loc),
    Heap.InMemoryEventStore.list events h = Some (Ok a, h')
    ∧ h ⊆ h'
    ∧ elements h' a = Some elems
    ∧ elements h events = Some records
    ∧ mapM (instance_at h') elems = Some history
    ∧ (a ∉ dom h)
    ∧ Forall (λ i, i ∉ dom h) elems
    ∧ Forall2 (λ i r, ∃ p, changes_of h' i = Some p
                        ∧ changes_of_record h r = Some p) elems records.
Proof.
  intros Hcontents.
  assert (Hrecords : ∃ records, h !! events = Some (Arr records)
    ∧ mapM (record_at h) records = Some (store_after history)).
  { unfold contents, elements in Hcontents.
    destruct (h !! events) as [[]|]; try done. eauto. }
  destruct Hrecords as (records & Hev & Hrecs).
  destruct (map_fromState_spec records h (store_after history) history Hrecs)
    as (elems & h1 & Hloop & Hsub1 & Hinsts & Hnew & Hshare).
  { by rewrite store_after_map, map_result_fromState_toState. }
  destruct (alloc_fresh (Arr elems) h1) as (Hfresh & Hh2 & Hsub2).
  destruct (alloc (Arr elems) h1) as [a h2] eqn:Halloc. simpl in *.
  assert (Ha : h2 !! a = Some (Arr elems)).
  { subst h2. apply lookup_insert_eq. }
  exists a, h2, elems, records. split_and!.
  - unfold Heap.InMemoryEventStore.list. by rewrite Hev, Hloop, Halloc.
  - by etrans.
  - unfold elements. by rewrite Ha.
  - unfold elements. by rewrite Hev.
  - exact (instances_weaken h1 h2 elems history Hsub2 Hinsts).
  - intros Hin. apply Hfresh. by apply (subseteq_dom _ _ Hsub1).
  - done.
  - eapply Forall2_impl; [exact Hshare|]. intros i r (p & Hi & Hr).
    exists p. split; [|done]. exact (changes_of_weaken h1 h2 i p Hsub2 Hi).
Qed.

End HeapFacts.

(** ** [getById] with object identity *)

Section SortRelated.
Context {A B : Type} (R : A → B → Prop).
Context (cmpA : A → A → Z) (cmpB : B → B → Z).
Hypothesis cmp_related :
  ∀ x x' y y', R x x' → R y y' → cmpA x y = cmpB x' y'.

Lemma insert_related (x : A) (x' : B) (l : list A) (l' : list B) :
  R x x' → Forall2 R l l' →
  Forall2 R (ArraySort.insert cmpA x l) (ArraySort.insert cmpB x' l').
Proof.
  intros Hx. induction 1 as [|y y' l l' Hy Hl IH]; simpl.
  - by repeat constructor.
  - rewrite (cmp_related x x' y y' Hx Hy).
    destruct (cmpB x' y' <? 0)%Z; by repeat constructor.
Qed.

Lemma sort_related (l : list A) (l' : list B) :
  Forall2 R l l' →
  Forall2 R (ArraySort.sort cmpA l) (ArraySort.sort cmpB l').
Proof.
  unfold ArraySort.sort. intros Hl.
  enough (Hgen : ∀ acc acc', Forall2 R acc acc' →
    Forall2 R (fold_left (λ placed x, ArraySort.insert cmpA x placed) l acc)
      (fold_left (λ placed x, ArraySort.insert cmpB x placed) l' acc'))
    by (apply Hgen; constructor).
  induction Hl as [|x x' l l' Hx Hl IH]; intros acc acc' Hacc; simpl; [done|].
  apply IH. by apply insert_related.
Qed.

End SortRelated.

Section HeapGetById.

Local Abbreviation heap := Heap.heap.
Local Abbreviation loc := Heap.loc.

Lemma instance_at_cell (h : heap) (i : loc) (ev : DomainEvent.t) :
  Heap.instance_at h i = Some ev →
  ∃ e, h !! i = Some (Heap.Inst e)
    ∧ Heap.payload_at h (Heap.i_changes e) = Some (DomainEvent.changes ev)
    ∧ Heap.i_aggregateId e = DomainEvent.aggregateId ev
    ∧ Heap.i_createdAt e = DomainEvent.createdAt ev.
Proof.
  unfold Heap.instance_at.
  destruct (h !! i) as [[| |e|]|]; try done.
  destruct (Heap.payload_at h (Heap.i_changes e)) as [o|] eqn:Ho; [|done].
  simpl. intros [= <-]. by exists e.
Qed.

Lemma filter_instances (id : string) (h : heap) (elems : list loc)
    (listed : list DomainEvent.t) :
  mapM (Heap.instance_at h) elems = Some listed →
  ∃ kept, Heap.FormationRepository.filter id elems h = Some kept
    ∧ mapM (Heap.instance_at h) kept
      = Some (FormationRepository.eventsForAggregate id listed).
Proof.
  rewrite mapM_Some. induction 1 as [|i ev elems listed Hi _ IH].
  - by exists [].
  - destruct IH as (kept & Hkept & Hvals).
    destruct (instance_at_cell h i ev Hi) as (e & Hcell & _ & Hagg & _).
    cbn [Heap.FormationRepository.filter FormationRepository.eventsForAggregate
         List.filter].
    rewrite Hcell, Hkept, Hagg. simpl.
    destruct (strict_eq (DomainEvent.aggregateId ev) (VString id)).
    + exists (i :: kept). split; [done|].
      apply mapM_Some. constructor; [done|]. by apply mapM_Some.
    + by exists kept.
Qed.

Lemma comparefn_instances (h : heap) (i j : loc) (ev ev' : DomainEvent.t) :
  Heap.instance_at h i = Some ev → Heap.instance_at h j = Some ev' →
  Heap.FormationRepository.comparefn h i j = FormationRepository.comparefn ev ev'.
Proof.
  intros Hi Hj.
  destruct (instance_at_cell h i ev Hi) as (e & Hcell & _ & _ & Ht).
  destruct (instance_at_cell h j ev' Hj) as (e' & Hcell' & _ & _ & Ht').
  unfold Heap.FormationRepository.comparefn, Heap.FormationRepository.createdAt,
    FormationRepository.comparefn.
  by rewrite Hcell, Hcell', Ht, Ht'.
Qed.

Lemma changes_of_instances (h : heap) (elems : list loc) (l : list DomainEvent.t) :
  mapM (Heap.instance_at h) elems = Some l →
  ∃ payloads, mapM (Heap.changes_of h) elems = Some payloads
    ∧ Forall2 (λ p o, Heap.payload_at h p = Some o) payloads
        (map DomainEvent.changes l).
Proof.
  rewrite mapM_Some. induction 1 as [|i ev elems l Hi _ IH].
  - exists []. split; [done|constructor].
  - destruct IH as (payloads & Hp & Hall).
    destruct (instance_at_cell h i ev Hi) as (e & Hcell & Hpay & _).
    exists (Heap.i_changes e :: payloads). split.
    + apply mapM_Some. constructor; [|by apply mapM_Some].
      unfold Heap.changes_of. by rewrite Hcell.
    + by constructor.
Qed.

Lemma reduce_from_spec (payloads : list loc) (objs : list obj) :
  ∀ (h : heap) (prev : loc) (o : obj),
    Heap.payload_at h prev = Some o →
    Forall2 (λ p ob, Heap.payload_at h p = Some ob) payloads objs →
    ∃ (st : loc) (h' : heap),
      Heap.FormationRepository.reduce_from payloads prev h = Some (st, h')
      ∧ h ⊆ h'
      ∧ Heap.payload_at h' st = Some (fold_left spread objs o).
Proof.
  intros h prev o Hprev Hall. revert h prev o Hprev Hall.
  induction payloads as [|p payloads IH] in objs |- *;
    intros h prev o Hprev Hall;
    inversion Hall as [|? ob ? objs' Hp Hall']; subst.
  - by exists prev, h.
  - cbn [Heap.FormationRepository.reduce_from fold_left].
    assert (Hc1 : h !! prev = Some (Heap.Payload o)).
    { unfold Heap.payload_at in Hprev.
      destruct (h !! prev) as [[]|]; try done. congruence. }
    assert (Hc2 : h !! p = Some (Heap.Payload ob)).
    { unfold Heap.payload_at in Hp.
      destruct (h !! p) as [[]|]; try done. congruence. }
    rewrite Hc1, Hc2.
    destruct (alloc_fresh (Heap.Payload (spread o ob)) h) as (_ & Hh1 & Hsub1).
    destruct (Heap.alloc (Heap.Payload (spread o ob)) h) as [next h1].
    simpl in Hh1, Hsub1.
    destruct (IH objs' h1 next (spread o ob)) as (st & h' & Hred & Hsub & Hst).
    { unfold Heap.payload_at. subst h1. by rewrite lookup_insert_eq. }
    { eapply Forall2_impl; [exact Hall'|].
      intros q qo. by apply payload_at_weaken. }
    exists st, h'. split_and!; [done|by etrans|done].
Qed.

(** [getById] with object identity returns what [getById] on values
    returns, and every object that existed before the call is unchanged:
    the only write, the in-place sort, is to the array [filter] created. *)
Lemma heap_getById_spec (h : heap) (events : loc) (history : list DomainEvent.t)
    (id : string) :
  Heap.contents h events = Some (store_after history) →
  ∃ h' : heap,
    Heap.FormationRepository.getById events id h
    = Some (Ok (Formation.fromState (FormationRepository.state id history)), h')
    ∧ h ⊆ h'.
Proof.
  intros Hcontents.
  destruct (list_spec h events history Hcontents)
    as (a & h1 & elems & records & Hlist & Hsub1 & Ha & _ & Hinsts & _).
  destruct (filter_instances id h1 elems history Hinsts) as (kept & Hkept & Hkvals).
  unfold Heap.FormationRepository.getById. rewrite Hlist, Ha.
  cbn [mbind option_bind]. rewrite Hkept. cbn [mbind option_bind].
  destruct (alloc_fresh (Heap.Arr kept) h1) as (Hb & Hh2 & Hsub2).
  destruct (Heap.alloc (Heap.Arr kept) h1) as [b h2]. cbn [fst snd] in Hb, Hh2, Hsub2.
  apply not_elem_of_dom in Hb.
  assert (Hcell : h2 !! b = Some (Heap.Arr kept)).
  { subst h2. apply lookup_insert_eq. }
  unfold Heap.FormationRepository.sort. rewrite Hcell. cbn [mbind option_bind].
  set (sorted := ArraySort.sort (Heap.FormationRepository.comparefn h2) kept).
  set (h3 := <[b := Heap.Arr sorted]> h2).
  assert (Hsub3 : h1 ⊆ h3) by (by apply insert_subseteq_r).
  assert (Hsorted : mapM (Heap.instance_at h3) sorted
    = Some (ArraySort.sort FormationRepository.comparefn
              (FormationRepository.eventsForAggregate id history))).
  { apply mapM_Some.
    eapply Forall2_impl;
      [|intros i ev Hi; exact (instance_at_weaken h1 h3 i ev Hsub3 Hi)].
    apply sort_related; [|by apply mapM_Some].
    intros i ev j ev' Hi Hj. apply comparefn_instances.
    - exact (instance_at_weaken h1 h2 i ev Hsub2 Hi).
    - exact (instance_at_weaken h1 h2 j ev' Hsub2 Hj). }
  assert (Hb3 : Heap.elements h3 b = Some sorted).
  { unfold Heap.elements, h3. by rewrite lookup_insert_eq. }
  rewrite Hb3. cbn [mbind option_bind].
  destruct (changes_of_instances h3 sorted _ Hsorted) as (payloads & Hpay & Hobjs).
  rewrite Hpay. cbn [mbind option_bind].
  destruct (alloc_fresh (Heap.Arr payloads) h3) as (_ & _ & Hsub4).
  destruct (Heap.alloc (Heap.Arr payloads) h3) as [c h4]. cbn [snd] in Hsub4.
  unfold Heap.FormationRepository.reduce.
  destruct (alloc_fresh (Heap.Payload ∅) h4) as (_ & Hh0 & Hsub0).
  destruct (Heap.alloc (Heap.Payload ∅) h4) as [initial h0].
  cbn [fst snd] in Hh0, Hsub0.
  assert (Hsub30 : h3 ⊆ h0) by (by etrans).
  destruct (reduce_from_spec payloads
              (map DomainEvent.changes
                 (ArraySort.sort FormationRepository.comparefn
                    (FormationRepository.eventsForAggregate id history)))
              h0 initial ∅) as (st & h5 & Hred & Hsub5 & Hst).
  { unfold Heap.payload_at. subst h0. by rewrite lookup_insert_eq. }
  { eapply Forall2_impl; [exact Hobjs|].
    intros q qo. by apply payload_at_weaken. }
  rewrite Hred. cbn [mbind option_bind]. rewrite Hst. cbn [mbind option_bind].
  exists h5. split; [done|].
  transitivity h1; [done|]. transitivity h3; [done|]. by transitivity h0.
Qed.

End HeapGetById.

(** * The claims *)

(** C1.  For every history of appended events and every [id], [getById id]
    returns the aggregate rehydrated from a state that is, key by key, the
    last write among the retained events once they are put in ascending
    [createdAt] order: the retained events are exactly those of aggregate
    [id], the order is ascending, events with one timestamp keep their
    append order, and a later event's key replaces an earlier one's (by
    [ascending_stable_unique] there is one such arrangement).  For
    E1 (t=1, {a:1}), E2 (t=3, {a:2, b:1}), E3 (t=2, {b:2}) appended in this
    order the events are folded in the order E1, E3, E2 and the state is
    {a:2, b:1}. *)
Theorem getById_filters_sorts_folds :
  (∀ (history : list DomainEvent.t) (id : string),
     ∃ sorted : list DomainEvent.t,
       FormationRepository.getById id (store_after history)
       = (Ok (Formation.fromState (FormationRepository.state id history)),
          store_after history)
       ∧ sorted ≡ₚ of_aggregate id history
       ∧ ascending sorted
       ∧ (∀ t, stamped t sorted = stamped t (of_aggregate id history))
       ∧ FormationRepository.state id history
         = FormationRepository.reduce (map DomainEvent.changes sorted)
       ∧ (∀ k, FormationRepository.state id history !! k = last_write k sorted))
  ∧ ArraySort.sort FormationRepository.comparefn
      [FoldOrdering.E1; FoldOrdering.E2; FoldOrdering.E3]
    = [FoldOrdering.E1; FoldOrdering.E3; FoldOrdering.E2]
  ∧ FormationRepository.state "F"
      [FoldOrdering.E1; FoldOrdering.E2; FoldOrdering.E3]
    = {[ "a" := VNumber 2; "b" := VNumber 1 ]}.
Proof.
  split; [|split; by vm_compute].
  intros history id.
  exists (ArraySort.sort FormationRepository.comparefn (of_aggregate id history)).
  destruct (sort_spec (of_aggregate id history)) as (Hperm & Hasc & Hstable).
  assert (Hstate : FormationRepository.state id history
    = FormationRepository.reduce (map DomainEvent.changes
        (ArraySort.sort FormationRepository.comparefn (of_aggregate id history)))).
  { unfold FormationRepository.state. by rewrite eventsForAggregate_of_aggregate. }
  split_and!; try done.
  - apply getById_store_after.
  - intros k. rewrite Hstate. apply reduce_lookup.
Qed.

(** C2.  For every event [e] of either class, and whatever the clock reads
    when its record is read back, [fromState (toState e)] succeeds and
    returns an event with [e]'s class, tag, aggregateId, createdAt and
    changes.  The timestamp is preserved, not regenerated: an event that
    the clock stamped [t] when it was created comes back stamped [t] at
    every reading [now] of the clock at reconstruction.  The record
    [toState] returns holds the event's [createdAt]; the same record
    without it would come back stamped [now].  The reads typed by
    [IEvent], where the clock is no input, return the same events; with
    object identity, the payload is the same object. *)
Theorem fromState_toState_roundtrip :
  (∀ (e : DomainEvent.t) (now : string),
     ∃ e', Runtime.fromState (Runtime.toState e) now = Ok e'
       ∧ DomainEvent.class e' = DomainEvent.class e
       ∧ DomainEvent.nom e' = DomainEvent.nom e
       ∧ DomainEvent.aggregateId e' = DomainEvent.aggregateId e
       ∧ DomainEvent.createdAt e' = DomainEvent.createdAt e
       ∧ DomainEvent.changes e' = DomainEvent.changes e)
  ∧ (∀ (aggregateId : value) (data : obj) (t now : string),
       Runtime.fromState
         (Runtime.toState (FormationCreee_creer aggregateId data t)) now
       = Ok (DomainEvent.mk FormationCreee aggregateId t data)
       ∧ Runtime.fromState
           (Runtime.toState (FormationPlanifiee_creer aggregateId data t)) now
         = Ok (DomainEvent.mk FormationPlanifiee aggregateId t data))
  ∧ (∀ (e : DomainEvent.t) (now : string),
       Runtime.r_createdAt (Runtime.toState e) = Some (DomainEvent.createdAt e)
       ∧ Runtime.fromState
           (Runtime.mk_record (DomainEvent.nom e) (DomainEvent.changes e)
              None (DomainEvent.aggregateId e)) now
         = Ok (DomainEvent.mk (DomainEvent.class e) (DomainEvent.aggregateId e)
                 now (DomainEvent.changes e)))
  ∧ (∀ (e : DomainEvent.t) (now : string),
       Runtime.toState e = Runtime.typed (DomainEvent.toState e)
       ∧ DomainEvent.fromState (DomainEvent.toState e)
         = Runtime.fromState (Runtime.toState e) now)
  ∧ (∀ (aggregateId : value) (data : obj) (now : string),
       DomainEvent.fromState
         (DomainEvent.toState (FormationCreee_creer aggregateId data now))
       = Ok (DomainEvent.mk FormationCreee aggregateId now data)
       ∧ DomainEvent.fromState
           (DomainEvent.toState (FormationPlanifiee_creer aggregateId data now))
         = Ok (DomainEvent.mk FormationPlanifiee aggregateId now data))
  ∧ (∀ e : Heap.instance, Heap.fromState (Heap.toState e) = Ok e).
Proof.
  split_and!.
  - intros e now. exists e. by rewrite fromState_toState_at.
  - intros aggregateId data t now. by rewrite !fromState_toState_at.
  - intros e now. split; [done|]. by destruct e as [[] ? ? ?].
  - intros e now. split; [done|].
    by rewrite fromState_toState, fromState_toState_at.
  - intros aggregateId data now. by rewrite !fromState_toState.
  - by intros [[] ? ? ?].
Qed.

(** C3 as stated fails: the exception is the same [Error] with the same
    fixed message whatever the unknown tag, so it carries no name. *)
Lemma unknown_kind_error_carries_no_name :
  let r1 := IEvent.mk "NOPE" ∅ "2021-01-01T00:00:00.000Z" (VString "X") in
  let r2 := IEvent.mk "NADA" ∅ "2021-01-01T00:00:00.000Z" (VString "X") in
  DomainEvent.fromState r1 = Throw (Error "Type d'évènement inconnu")
  ∧ DomainEvent.fromState r2 = DomainEvent.fromState r1
  ∧ IEvent.nom r2 ≠ IEvent.nom r1
  ∧ ¬ ∃ name_of : exn → string,
        ∀ r, IEvent.nom r ≠ "FORMATION_CREEE" →
             IEvent.nom r ≠ "FORMATION_PLANIFIEE" →
             ∃ err, DomainEvent.fromState r = Throw err ∧ name_of err = IEvent.nom r.
Proof.
  split_and!; try done.
  intros [name_of H].
  destruct (H (IEvent.mk "NOPE" ∅ "" VNull)) as (e1 & He1 & Hn1); [done..|].
  destruct (H (IEvent.mk "NADA" ∅ "" VNull)) as (e2 & He2 & Hn2); [done..|].
  cbv in He1, He2. simplify_eq. simpl in Hn1, Hn2.
  rewrite Hn1 in Hn2. discriminate Hn2.
Qed.

(** C3, amended.  [fromState] returns the matching class, with the
    record's aggregateId, changes and createdAt, for each of the two known
    tags and never fails on them; for any other tag it throws an [Error]
    whose message is the fixed text, without the tag. *)
Theorem fromState_dispatch (r : IEvent.t) :
  (IEvent.nom r = "FORMATION_CREEE" →
   DomainEvent.fromState r
   = Ok (DomainEvent.mk FormationCreee (IEvent.aggregateId r)
           (IEvent.createdAt r) (IEvent.changes r)))
  ∧ (IEvent.nom r = "FORMATION_PLANIFIEE" →
     DomainEvent.fromState r
     = Ok (DomainEvent.mk FormationPlanifiee (IEvent.aggregateId r)
             (IEvent.createdAt r) (IEvent.changes r)))
  ∧ (IEvent.nom r ≠ "FORMATION_CREEE" →
     IEvent.nom r ≠ "FORMATION_PLANIFIEE" →
     DomainEvent.fromState r = Throw (Error "Type d'évènement inconnu")).
Proof.
  unfold DomainEvent.fromState. split_and!.
  - by intros ->.
  - by intros ->.
  - intros H1 H2. apply String.eqb_neq in H1, H2. by rewrite H1, H2.
Qed.

Lemma fromState_dispatch_witness :
  DomainEvent.fromState (IEvent.mk "FORMATION_CREEE" ∅ "2021" (VString "X"))
  = Ok (DomainEvent.mk FormationCreee (VString "X") "2021" ∅)
  ∧ DomainEvent.fromState (IEvent.mk "FORMATION_PLANIFIEE" ∅ "2021" (VString "X"))
    = Ok (DomainEvent.mk FormationPlanifiee (VString "X") "2021" ∅)
  ∧ DomainEvent.fromState (IEvent.mk "NOPE" ∅ "2021" (VString "X"))
    = Throw (Error "Type d'évènement inconnu").
Proof.
  split_and!.
  - apply (fromState_dispatch (IEvent.mk "FORMATION_CREEE" ∅ "2021" (VString "X"))).
    reflexivity.
  - apply (fromState_dispatch (IEvent.mk "FORMATION_PLANIFIEE" ∅ "2021" (VString "X"))).
    reflexivity.
  - apply (fromState_dispatch (IEvent.mk "NOPE" ∅ "2021" (VString "X")));
      simpl; discriminate.
Defined.

(** C4.  [persist] appends the records of the aggregate's pending events
    to the store, in the order of the pending list, and returns the
    aggregate as it was: the pending list is neither cleared nor marked.
    Persisting the same aggregate twice appends its pending events twice. *)
Theorem persist_appends_pending (f : Formation.t) :
  (∀ s : store,
     FormationRepository.persist f s
     = (Ok f, s ++ map DomainEvent.toState (Formation.events f))
     ∧ (f' ← FormationRepository.persist f; FormationRepository.persist f') s
       = (Ok f, s ++ map DomainEvent.toState (Formation.events f)
                  ++ map DomainEvent.toState (Formation.events f)))
  ∧ (∀ history : list DomainEvent.t,
       (FormationRepository.persist f;; InMemoryEventStore.list)
         (store_after history)
       = (Ok (history ++ Formation.events f),
          store_after (history ++ Formation.events f))
       ∧ (f' ← FormationRepository.persist f;
          FormationRepository.persist f';; InMemoryEventStore.list)
           (store_after history)
         = (Ok (history ++ Formation.events f ++ Formation.events f),
            store_after (history ++ Formation.events f ++ Formation.events f))).
Proof.
  split.
  - intros s. split; [apply persist_run|].
    unfold mbind, M_bind. by rewrite !persist_run, <- app_assoc.
  - intros history. unfold mbind, M_bind.
    rewrite !persist_store_after, <- app_assoc. by rewrite !list_store_after.
Qed.

(** C5.  [creer] builds an aggregate without schedule whose only pending
    event is a FormationCreee carrying {id, nom, dureeEnHeures}; from the
    empty store, persisting it and reloading its id gives an aggregate
    with the same id, name and duration, no date and no instructor (and no
    pending event).  In particular for ('X', 'Name', 10). *)
Theorem creer_persist_getById :
  (∀ (id nom : string) (dureeEnHeures : Z) (now : string),
     let created :=
       DomainEvent.mk FormationCreee (VString id) now
         {[ "id" := VString id; "nom" := VString nom;
            "dureeEnHeures" := VNumber dureeEnHeures ]} in
     Formation.creer id nom dureeEnHeures now
     = Formation.mk (VString id) (VString nom) (VNumber dureeEnHeures)
         VNull VNull [created]
     ∧ (FormationRepository.persist (Formation.creer id nom dureeEnHeures now);;
        FormationRepository.getById id) InMemoryEventStore.empty
       = (Ok (Formation.mk (VString id) (VString nom) (VNumber dureeEnHeures)
                VNull VNull []),
          [DomainEvent.toState created]))
  ∧ (∀ now : string,
       fst ((FormationRepository.persist (Formation.creer "X" "Name" 10 now);;
             FormationRepository.getById "X") InMemoryEventStore.empty)
       = Ok (Formation.mk (VString "X") (VString "Name") (VNumber 10)
               VNull VNull [])).
Proof.
  assert (Hgen : ∀ (id nom : string) (dureeEnHeures : Z) (now : string),
     let created :=
       DomainEvent.mk FormationCreee (VString id) now
         {[ "id" := VString id; "nom" := VString nom;
            "dureeEnHeures" := VNumber dureeEnHeures ]} in
     Formation.creer id nom dureeEnHeures now
     = Formation.mk (VString id) (VString nom) (VNumber dureeEnHeures)
         VNull VNull [created]
     ∧ (FormationRepository.persist (Formation.creer id nom dureeEnHeures now);;
        FormationRepository.getById id) InMemoryEventStore.empty
       = (Ok (Formation.mk (VString id) (VString nom) (VNumber dureeEnHeures)
                VNull VNull []),
          [DomainEvent.toState created])).
  { intros id nom dureeEnHeures now created.
    assert (Hcreer : Formation.creer id nom dureeEnHeures now
      = Formation.mk (VString id) (VString nom) (VNumber dureeEnHeures)
          VNull VNull [created]) by done.
    split; [done|].
    unfold mbind, M_bind. rewrite Hcreer.
    change InMemoryEventStore.empty with (store_after []).
    rewrite persist_store_after, getById_store_after, store_after_map. simpl.
    do 2 f_equal.
    unfold FormationRepository.state, FormationRepository.eventsForAggregate.
    simpl. unfold strict_eq. rewrite bool_decide_eq_true_2 by done.
    done. }
  split; [exact Hgen|].
  intros now. exact (f_equal fst (proj2 (Hgen "X" "Name" 10%Z now))).
Qed.

(** C6 as stated fails: an aggregate scheduled at [t1] and persisted after
    another instance of the same aggregate, scheduled at the later [t2],
    has been persisted, does not show on reload; the reload shows the
    schedule stamped [t2].  And an aggregate that [fromState] built from a
    state no stored event backs reloads, after scheduling, without its id,
    name and duration. *)
Lemma reload_shows_latest_stamp_not_latest_persist :
  let created :=
    DomainEvent.mk FormationCreee (VString "X") Race.t0
      {[ "id" := VString "X"; "nom" := VString "Name";
         "dureeEnHeures" := VNumber 10 ]} in
  let bob :=
    DomainEvent.mk FormationPlanifiee (VString "X") Race.t2
      {[ "date" := VString "2021-06-01"; "nomFormateur" := VString "Bob" ]} in
  let a := Formation.mk (VString "X") (VString "Name") (VNumber 10) VNull VNull [] in
  FormationRepository.getById "X" (store_after [created])
  = (Ok a, store_after [created])
  ∧ fst ((FormationRepository.persist
            (Formation.planifierLe a "2021-05-01" "Alice" Race.t1);;
          FormationRepository.getById "X") (store_after [created; bob]))
    = Ok (Formation.mk (VString "X") (VString "Name") (VNumber 10)
            (VString "2021-06-01") (VString "Bob") [])
  ∧ fst (Race.run InMemoryEventStore.empty)
    = Ok (Formation.mk (VString "X") (VString "Name") (VNumber 10)
            (VString "2021-06-01") (VString "Bob") [])
  ∧ fst ((FormationRepository.persist
            (Formation.planifierLe
               (Formation.fromState
                  {[ "id" := VString "X"; "nom" := VString "Name";
                     "dureeEnHeures" := VNumber 10 ]})
               "2021-05-01" "Alice" Race.t1);;
          FormationRepository.getById "X") InMemoryEventStore.empty)
    = Ok (Formation.mk VUndefined VUndefined VUndefined
            (VString "2021-05-01") (VString "Alice") []).
Proof. by vm_compute. Qed.

(** C6, amended.  For every aggregate, [planifierLe] sets the date and the
    instructor to its arguments and appends one FormationPlanifiee event
    carrying {date, nomFormateur}, stamped by the clock, for the
    aggregate's id; id, name and duration are not touched.  After [persist]
    and a reload of the aggregate's id, the reloaded aggregate has the new
    date and instructor provided no event of that aggregate, stored or
    pending on the instance, is stamped later than the new event; its id,
    name and duration are those a reload would have shown without the
    scheduling, which are the instance itself when the instance is what
    [getById] returns for the store. *)
Theorem planifierLe_then_reload (f : Formation.t) (date nomFormateur now : string) :
  let f' := Formation.planifierLe f date nomFormateur now in
  (Formation.date f' = VString date
   ∧ Formation.nomFormateur f' = VString nomFormateur
   ∧ Formation.events f'
     = Formation.events f
         ++ [DomainEvent.mk FormationPlanifiee (Formation.id f) now
               {[ "date" := VString date;
                  "nomFormateur" := VString nomFormateur ]}]
   ∧ Formation.id f' = Formation.id f
   ∧ Formation.nom f' = Formation.nom f
   ∧ Formation.dureeEnHeures f' = Formation.dureeEnHeures f)
  ∧ ∀ (history : list DomainEvent.t) (id : string),
      Formation.id f = VString id →
      clock_not_behind now id (history ++ Formation.events f) →
      ∃ g g0 : Formation.t,
        (FormationRepository.persist f';; FormationRepository.getById id)
          (store_after history)
        = (Ok g, store_after (history ++ Formation.events f'))
        ∧ (FormationRepository.persist f;; FormationRepository.getById id)
            (store_after history)
          = (Ok g0, store_after (history ++ Formation.events f))
        ∧ Formation.date g = VString date
        ∧ Formation.nomFormateur g = VString nomFormateur
        ∧ Formation.id g = Formation.id g0
        ∧ Formation.nom g = Formation.nom g0
        ∧ Formation.dureeEnHeures g = Formation.dureeEnHeures g0
        ∧ (FormationRepository.getById id (store_after history)
           = (Ok f, store_after history) → g0 = f).
Proof.
  intros f'. subst f'. rewrite planifierLe_fields. split; [done|].
  intros history id Hid Hclock.
  cbn [Formation.events]. unfold mbind, M_bind.
  rewrite !persist_store_after. cbn [Formation.events].
  rewrite !getById_store_after, app_assoc.
  rewrite state_snoc_latest by done.
  cbn [DomainEvent.changes]. rewrite fromState_spread_schedule.
  eexists _, _. split_and!; try done.
  intros Hloaded.
  assert (Hf : f = Formation.fromState (FormationRepository.state id history))
    by congruence.
  assert (Hnil : Formation.events f = []) by (by rewrite Hf).
  by rewrite Hnil, app_nil_r.
Qed.

Lemma planifierLe_then_reload_witness :
  let created :=
    DomainEvent.mk FormationCreee (VString "X") Race.t0
      {[ "id" := VString "X"; "nom" := VString "Name";
         "dureeEnHeures" := VNumber 10 ]} in
  let f := Formation.mk (VString "X") (VString "Name") (VNumber 10) VNull VNull [] in
  ∃ g g0 : Formation.t,
    (FormationRepository.persist
       (Formation.planifierLe f "2021-05-01" "Alice" Race.t1);;
     FormationRepository.getById "X") (store_after [created])
    = (Ok g,
       store_after
         ([created]
            ++ Formation.events
                 (Formation.planifierLe f "2021-05-01" "Alice" Race.t1)))
    ∧ (FormationRepository.persist f;; FormationRepository.getById "X")
        (store_after [created])
      = (Ok g0, store_after ([created] ++ Formation.events f))
    ∧ Formation.date g = VString "2021-05-01"
    ∧ Formation.nomFormateur g = VString "Alice"
    ∧ Formation.id g = Formation.id g0
    ∧ Formation.nom g = Formation.nom g0
    ∧ Formation.dureeEnHeures g = Formation.dureeEnHeures g0
    ∧ (FormationRepository.getById "X" (store_after [created])
       = (Ok f, store_after [created]) → g0 = f).
Proof.
  intros created f.
  destruct (planifierLe_then_reload f "2021-05-01" "Alice" Race.t1) as [_ H].
  apply (H [created] "X").
  - reflexivity.
  - vm_compute. repeat constructor.
Defined.

(** C7 as stated fails: the event [list] returns refers to the payload
    object the store's record refers to, and an assignment to a property
    of that payload through the returned event changes what the store
    holds. *)
Lemma payload_written_through_listed_event :
  ∃ (a i : Heap.loc) (h2 : Heap.heap),
    Heap.InMemoryEventStore.add Shared.events Shared.event Shared.h0
    = Some Shared.h1
    ∧ Heap.InMemoryEventStore.list Shared.events Shared.h1 = Some (Ok a, h2)
    ∧ Heap.elements h2 a = Some [i]
    ∧ Heap.changes_of h2 i = Some Shared.payload
    ∧ Heap.contents h2 Shared.events
      = Some [IEvent.mk "FORMATION_CREEE" {[ "a" := VNumber 1 ]}
                "2021-01-01T00:00:00.000Z" (VString "X")]
    ∧ Heap.contents (Heap.assign Shared.payload "a" (VNumber 2) h2) Shared.events
      = Some [IEvent.mk "FORMATION_CREEE" {[ "a" := VNumber 2 ]}
                "2021-01-01T00:00:00.000Z" (VString "X")]
    ∧ Heap.contents (Heap.assign Shared.payload "a" (VNumber 2) h2) Shared.events
      ≠ Heap.contents h2 Shared.events.
Proof.
  exists 6%positive, 5%positive.
  eexists. split_and!; [by vm_compute..|].
  vm_compute. discriminate.
Qed.

(** C7, amended.  For every store, [list] returns the events of all the
    records of the log, in append order, and leaves the store as it was.
    The array it returns and the event instances in it are new objects:
    nothing that existed before the call is changed by writing to them, so
    no such write changes what the store holds.  The payload of each
    returned event is not new: it is the object the corresponding record
    of the store refers to. *)
Theorem list_returns_new_array_sharing_payloads
    (h : Heap.heap) (events : Heap.loc) (history : list DomainEvent.t) :
  Heap.contents h events = Some (store_after history) →
  ∃ (a : Heap.loc) (h' : Heap.heap) (elems records : list Heap.loc),
    Heap.InMemoryEventStore.list events h = Some (Ok a, h')
    ∧ InMemoryEventStore.list (store_after history)
      = (Ok history, store_after history)
    ∧ Heap.instances h' a = Some history
    ∧ Heap.contents h' events = Some (store_after history)
    ∧ h ⊆ h'
    ∧ Heap.elements h' a = Some elems
    ∧ Heap.elements h events = Some records
    ∧ (a ∉ dom h)
    ∧ Forall (λ i, i ∉ dom h) elems
    ∧ (∀ (l : Heap.loc) (c : Heap.cell),
         l ∉ dom h →
         Heap.contents (<[l := c]> h') events = Some (store_after history))
    ∧ Forall2 (λ i r, ∃ p, Heap.changes_of h' i = Some p
                        ∧ Heap.changes_of_record h r = Some p) elems records.
Proof.
  intros Hcontents.
  destruct (list_spec h events history Hcontents)
    as (a & h' & elems & records & Hlist & Hsub & Ha & Hev & Hinsts
        & Hfresh & Hnew & Hshare).
  exists a, h', elems, records. split_and!; try done.
  - apply list_store_after.
  - unfold Heap.instances. by rewrite Ha.
  - exact (contents_weaken h h' events _ Hsub Hcontents).
  - intros l c Hl. eapply contents_weaken; [|exact Hcontents].
    apply insert_subseteq_r; [by apply not_elem_of_dom|done].
Qed.

Lemma list_returns_new_array_sharing_payloads_witness :
  ∃ (a : Heap.loc) (h' : Heap.heap) (elems records : list Heap.loc),
    Heap.InMemoryEventStore.list Shared.events Shared.h1 = Some (Ok a, h')
    ∧ InMemoryEventStore.list (store_after [Shared.created])
      = (Ok [Shared.created], store_after [Shared.created])
    ∧ Heap.instances h' a = Some [Shared.created]
    ∧ Heap.contents h' Shared.events = Some (store_after [Shared.created])
    ∧ Shared.h1 ⊆ h'
    ∧ Heap.elements h' a = Some elems
    ∧ Heap.elements Shared.h1 Shared.events = Some records
    ∧ (a ∉ dom Shared.h1)
    ∧ Forall (λ i, i ∉ dom Shared.h1) elems
    ∧ (∀ (l : Heap.loc) (c : Heap.cell),
         l ∉ dom Shared.h1 →
         Heap.contents (<[l := c]> h') Shared.events
         = Some (store_after [Shared.created]))
    ∧ Forall2 (λ i r, ∃ p, Heap.changes_of h' i = Some p
                        ∧ Heap.changes_of_record Shared.h1 r = Some p)
        elems records.
Proof.
  apply (list_returns_new_array_sharing_payloads
           Shared.h1 Shared.events [Shared.created]).
  vm_compute. reflexivity.
Defined.

(** C8.  [Formation.fromState] reads the five fields from the state and
    nothing else: id, name and duration are the state's, the date and the
    instructor are the state's when it has them and null when they are
    missing (or undefined, or null), two states that agree on the five keys
    give the same aggregate, and the pending list is empty. *)
Theorem fromState_rehydrates (state : obj) :
  Formation.fromState state
  = Formation.mk (get state "id") (get state "nom") (get state "dureeEnHeures")
      (coalesce (get state "date") VNull)
      (coalesce (get state "nomFormateur") VNull) []
  ∧ Formation.events (Formation.fromState state) = []
  ∧ (state !! "date" = None → Formation.date (Formation.fromState state) = VNull)
  ∧ (state !! "nomFormateur" = None →
     Formation.nomFormateur (Formation.fromState state) = VNull)
  ∧ (∀ s, state !! "date" = Some (VString s) →
          Formation.date (Formation.fromState state) = VString s)
  ∧ (∀ s, state !! "nomFormateur" = Some (VString s) →
          Formation.nomFormateur (Formation.fromState state) = VString s)
  ∧ (∀ state' : obj,
       (∀ k, k ∈ ["id"; "nom"; "dureeEnHeures"; "date"; "nomFormateur"] →
             state' !! k = state !! k) →
       Formation.fromState state' = Formation.fromState state).
Proof.
  assert (Heq : ∀ st : obj, Formation.fromState st
    = Formation.mk (get st "id") (get st "nom") (get st "dureeEnHeures")
        (coalesce (get st "date") VNull)
        (coalesce (get st "nomFormateur") VNull) []) by done.
  split_and!; [apply Heq|done|..].
  - intros H. rewrite Heq. simpl. unfold get. by rewrite H.
  - intros H. rewrite Heq. simpl. unfold get. by rewrite H.
  - intros s H. rewrite Heq. simpl. unfold get. by rewrite H.
  - intros s H. rewrite Heq. simpl. unfold get. by rewrite H.
  - intros state' H. rewrite !Heq. unfold get.
    rewrite !H; [done|set_solver..].
Qed.

Lemma fromState_rehydrates_witness :
  Formation.date
    (Formation.fromState
       {[ "id" := VString "X"; "nom" := VString "Name";
          "dureeEnHeures" := VNumber 10 ]}) = VNull
  ∧ Formation.nomFormateur
      (Formation.fromState
         {[ "id" := VString "X"; "nom" := VString "Name";
            "dureeEnHeures" := VNumber 10 ]}) = VNull
  ∧ Formation.date
      (Formation.fromState
         {[ "id" := VString "X"; "date" := VString "2021-05-01";
            "nomFormateur" := VString "Alice" ]}) = VString "2021-05-01".
Proof.
  destruct (fromState_rehydrates
              {[ "id" := VString "X"; "nom" := VString "Name";
                 "dureeEnHeures" := VNumber 10 ]})
    as (_ & _ & Hdate & HnomFormateur & _).
  destruct (fromState_rehydrates
              {[ "id" := VString "X"; "date" := VString "2021-05-01";
                 "nomFormateur" := VString "Alice" ]})
    as (_ & _ & _ & _ & Hdate' & _).
  split_and!.
  - apply Hdate. vm_compute. reflexivity.
  - apply HnomFormateur. vm_compute. reflexivity.
  - apply Hdate'. vm_compute. reflexivity.
Defined.

(** C9.  When no event of the store belongs to [id], [getById id] does not
    throw: the fold gives the empty mapping and the aggregate returned has
    undefined id, name and duration, null date and instructor, and no
    pending event. *)
Theorem getById_without_events (history : list DomainEvent.t) (id : string) :
  Forall (λ e, DomainEvent.aggregateId e ≠ VString id) history →
  FormationRepository.state id history = ∅
  ∧ FormationRepository.getById id (store_after history)
    = (Ok (Formation.mk VUndefined VUndefined VUndefined VNull VNull []),
       store_after history).
Proof.
  intros Hnone.
  assert (Hstate : FormationRepository.state id history = ∅).
  { unfold FormationRepository.state.
    rewrite eventsForAggregate_of_aggregate. unfold of_aggregate.
    replace (filter _ history) with (@nil DomainEvent.t); [done|].
    symmetry. induction Hnone as [|e l He _ IH]; [done|].
    by rewrite filter_cons_False. }
  split; [done|].
  by rewrite getById_store_after, Hstate, fromState_empty.
Qed.

Lemma getById_without_events_witness :
  FormationRepository.state "UNKNOWN"
    [DomainEvent.mk FormationCreee (VString "X") "2021-01-01T00:00:00.000Z"
       {[ "id" := VString "X" ]}] = ∅
  ∧ FormationRepository.getById "UNKNOWN"
      (store_after
         [DomainEvent.mk FormationCreee (VString "X") "2021-01-01T00:00:00.000Z"
            {[ "id" := VString "X" ]}])
    = (Ok (Formation.mk VUndefined VUndefined VUndefined VNull VNull []),
       store_after
         [DomainEvent.mk FormationCreee (VString "X") "2021-01-01T00:00:00.000Z"
            {[ "id" := VString "X" ]}]).
Proof.
  apply (getById_without_events
           [DomainEvent.mk FormationCreee (VString "X") "2021-01-01T00:00:00.000Z"
              {[ "id" := VString "X" ]}] "UNKNOWN").
  repeat constructor. simpl. discriminate.
Defined.

(** C10.  [getById] leaves the store as it found it, whatever the store
    holds and whether it returns or throws; so does the [list] it calls.
    With object identity: [getById] returns the same aggregate, and after
    the call every object that existed before it, the store's array, its
    records and their payloads among them, is as it was, so the store
    holds what it held; the array the sort reorders is one [getById]
    created. *)
Theorem getById_leaves_store :
  (∀ (s : store) (id : string),
     snd (FormationRepository.getById id s) = s
     ∧ snd (InMemoryEventStore.list s) = s)
  ∧ (∀ (h : Heap.heap) (events : Heap.loc) (history : list DomainEvent.t)
       (id : string),
       Heap.contents h events = Some (store_after history) →
       ∃ (f : Formation.t) (h' : Heap.heap),
         Heap.FormationRepository.getById events id h = Some (Ok f, h')
         ∧ fst (FormationRepository.getById id (store_after history)) = Ok f
         ∧ h ⊆ h'
         ∧ Heap.contents h' events = Some (store_after history)).
Proof.
  split.
  - intros s id. split; [by rewrite getById_run|done].
  - intros h events history id Hcontents.
    destruct (heap_getById_spec h events history id Hcontents) as (h' & Hget & Hsub).
    eexists _, h'. split_and!; [exact Hget| |done|].
    + by rewrite getById_store_after.
    + exact (contents_weaken h h' events _ Hsub Hcontents).
Qed.

Lemma getById_leaves_store_witness :
  ∃ (f : Formation.t) (h' : Heap.heap),
    Heap.FormationRepository.getById RaceHeap.events "X" RaceHeap.h
    = Some (Ok f, h')
    ∧ fst (FormationRepository.getById "X"
             (store_after [RaceHeap.created; RaceHeap.bob; RaceHeap.alice]))
      = Ok f
    ∧ RaceHeap.h ⊆ h'
    ∧ Heap.contents h' RaceHeap.events
      = Some (store_after [RaceHeap.created; RaceHeap.bob; RaceHeap.alice]).
Proof.
  apply (proj2 getById_leaves_store RaceHeap.h RaceHeap.events
           [RaceHeap.created; RaceHeap.bob; RaceHeap.alice] "X").
  vm_compute. reflexivity.
Defined.

(** * Further properties *)

(** ** Reading a store that was not written through [add] *)

Lemma fromState_known (r : IEvent.t) :
  known_tag r = true →
  ∃ e, DomainEvent.fromState r = Ok e ∧ DomainEvent.toState e = r.
Proof.
  unfold known_tag, DomainEvent.fromState. destruct r as [nom ch ts agg]. simpl.
  destruct (String.eqb_spec nom "FORMATION_CREEE") as [->|_].
  - intros _. by eexists.
  - destruct (String.eqb_spec nom "FORMATION_PLANIFIEE") as [->|_]; [|done].
    intros _. by eexists.
Qed.

Lemma fromState_unknown (r : IEvent.t) :
  known_tag r = false →
  DomainEvent.fromState r = Throw (Error "Type d'évènement inconnu").
Proof.
  unfold known_tag, DomainEvent.fromState. intros H.
  apply orb_false_iff in H as [-> ->]. done.
Qed.

Lemma map_result_fromState_Throw (s : store) :
  forallb known_tag s = false →
  map_result DomainEvent.fromState s = Throw (Error "Type d'évènement inconnu").
Proof.
  induction s as [|r s IH]; simpl; [done|].
  destruct (known_tag r) eqn:Hk; simpl.
  - intros H. destruct (fromState_known r Hk) as (e & -> & _). by rewrite IH.
  - intros _. by rewrite fromState_unknown.
Qed.

(** X1.  Whenever [list] returns, it returns one event per record and the
    store is as it was.  Adding the returned events in order to an empty
    store gives the records of the store, each record without [createdAt]
    now holding what the clock read when [list] reached it; so the store
    is rebuilt record for record exactly when every record has a
    [createdAt], and then [list] returns the same events whatever the
    clock reads. *)
Theorem list_then_add_rebuilds_store (clock : nat → string)
    (s s' : Runtime.store) (listed : list DomainEvent.t) :
  Runtime.InMemoryEventStore.list clock s = (Ok listed, s') →
  s' = s
  ∧ length listed = length s
  ∧ Runtime.store_after listed = Runtime.stamped_by clock s
  ∧ (Runtime.store_after listed = s ↔ Forall Runtime.has_createdAt s)
  ∧ (Forall Runtime.has_createdAt s →
     ∀ clock', Runtime.InMemoryEventStore.list clock' s = (Ok listed, s)).
Proof.
  unfold Runtime.InMemoryEventStore.list. intros [= Hl <-].
  destruct (list_at_Ok clock s listed Hl) as [Hs _].
  assert (Hafter : Runtime.store_after listed = Runtime.stamped_by clock s).
  { by rewrite store_after_toState. }
  split_and!; [done| |done| |].
  - rewrite <- (length_map Runtime.toState), Hs.
    unfold Runtime.stamped_by. apply length_imap.
  - rewrite Hafter. apply stamped_by_fixed.
  - intros Hall clock'. by rewrite <- (list_at_any_clock clock clock' s Hall), Hl.
Qed.

Lemma list_then_add_rebuilds_store_witness :
  let clock := λ i : nat, if i is 0%nat then "2022-01-01T00:00:00.000Z"
                          else "2022-01-01T00:00:00.001Z" in
  let s := [Runtime.mk_record "FORMATION_PLANIFIEE" {[ "date" := VString "2021" ]}
              (Some "2021-01-02T00:00:00.000Z") (VString "X");
            Runtime.mk_record "FORMATION_CREEE" {[ "id" := VString "X" ]}
              None (VString "X")] in
  let listed := [DomainEvent.mk FormationPlanifiee (VString "X")
                   "2021-01-02T00:00:00.000Z" {[ "date" := VString "2021" ]};
                 DomainEvent.mk FormationCreee (VString "X")
                   "2022-01-01T00:00:00.001Z" {[ "id" := VString "X" ]}] in
  Runtime.InMemoryEventStore.list clock s = (Ok listed, s)
  ∧ length listed = length s
  ∧ Runtime.store_after listed = Runtime.stamped_by clock s
  ∧ Runtime.store_after listed ≠ s
  ∧ ¬ Forall Runtime.has_createdAt s.
Proof.
  intros clock s listed.
  assert (Hl : Runtime.InMemoryEventStore.list clock s = (Ok listed, s))
    by (vm_compute; reflexivity).
  destruct (list_then_add_rebuilds_store clock s s listed Hl)
    as (_ & Hlen & Hafter & Hiff & _).
  split_and!; [exact Hl|exact Hlen|exact Hafter| |].
  - intros Heq. apply Hiff in Heq.
    apply Forall_cons in Heq as [_ Heq]. apply Forall_cons in Heq as [[ts Hts] _].
    discriminate Hts.
  - intros Hall.
    apply Forall_cons in Hall as [_ Hall]. apply Forall_cons in Hall as [[ts Hts] _].
    discriminate Hts.
Defined.

(** X2.  One record with a tag [fromState] does not know, of whatever
    aggregate and wherever it is in the store, makes [list] and [getById]
    of every id throw the fixed [Error]; the store is left as it was.
    Nothing in [getById] catches the exception. *)
Theorem unknown_record_fails_every_read (s : store) (id : string) :
  forallb known_tag s = false →
  InMemoryEventStore.list s = (Throw (Error "Type d'évènement inconnu"), s)
  ∧ FormationRepository.getById id s
    = (Throw (Error "Type d'évènement inconnu"), s).
Proof.
  intros H. rewrite getById_run. unfold InMemoryEventStore.list.
  by rewrite (map_result_fromState_Throw s H).
Qed.

Lemma unknown_record_fails_every_read_witness :
  let s := [IEvent.mk "FORMATION_CREEE" {[ "id" := VString "X" ]}
              "2021-01-01T00:00:00.000Z" (VString "X");
            IEvent.mk "FORMATION_ANNULEE" ∅
              "2021-01-02T00:00:00.000Z" (VString "Y")] in
  InMemoryEventStore.list s = (Throw (Error "Type d'évènement inconnu"), s)
  ∧ FormationRepository.getById "X" s
    = (Throw (Error "Type d'évènement inconnu"), s).
Proof.
  intros s. apply (unknown_record_fails_every_read s "X"). reflexivity.
Defined.

(** X3.  When every record of the store carries a known tag, [list] and
    [getById] of every id return, whatever the clock reads, whatever the
    aggregateId and the payload of the records hold and whether or not
    they have a [createdAt]: a known tag is all [fromState] asks of a
    record.  The store is left as it was, and the events listed are those
    of the records, a record without [createdAt] giving an event stamped
    with the clock. *)
Theorem known_tags_make_reads_succeed (clock : nat → string)
    (s : Runtime.store) (id : string) :
  forallb Runtime.known_tag s = true →
  ∃ listed,
    Runtime.InMemoryEventStore.list clock s = (Ok listed, s)
    ∧ map Runtime.toState listed = Runtime.stamped_by clock s
    ∧ Runtime.FormationRepository.getById id clock s
      = (Ok (Formation.fromState (FormationRepository.state id listed)), s).
Proof.
  intros H. destruct (list_at_known clock s H) as (listed & Hl).
  exists listed. destruct (list_at_Ok clock s listed Hl) as [Hs _].
  unfold Runtime.FormationRepository.getById, Runtime.InMemoryEventStore.list.
  by rewrite Hl.
Qed.

Lemma known_tags_make_reads_succeed_witness :
  let clock := λ _ : nat, "2022-01-01T00:00:00.000Z" in
  let s := [Runtime.mk_record "FORMATION_PLANIFIEE" {[ "date" := VString "2021" ]}
              None (VString "X");
            Runtime.mk_record "FORMATION_CREEE" ∅ (Some "") VNull] in
  ∃ listed,
    Runtime.InMemoryEventStore.list clock s = (Ok listed, s)
    ∧ map Runtime.toState listed = Runtime.stamped_by clock s
    ∧ Runtime.FormationRepository.getById "X" clock s
      = (Ok (Formation.fromState (FormationRepository.state "X" listed)), s).
Proof.
  intros clock s. apply (known_tags_make_reads_succeed clock s "X"). reflexivity.
Defined.

(** X17.  On records that carry a [createdAt], [list] and [getById] never
    take the clock: whatever it reads during the call, they return what
    the reads typed by [IEvent] return, where the clock is no input.
    Every store written through [add] is such a store: [list] then
    returns the events added, with the timestamps they had, and [getById]
    the aggregate folded from them. *)
Theorem reads_of_stamped_records_ignore_the_clock (clock : nat → string) :
  (∀ (s : store) (id : string),
     Runtime.InMemoryEventStore.list clock (map Runtime.typed s)
     = (fst (InMemoryEventStore.list s), map Runtime.typed s)
     ∧ Runtime.FormationRepository.getById id clock (map Runtime.typed s)
       = (fst (FormationRepository.getById id s), map Runtime.typed s))
  ∧ (∀ (history : list DomainEvent.t) (id : string),
       Runtime.store_after history = map Runtime.typed (store_after history)
       ∧ Forall Runtime.has_createdAt (Runtime.store_after history)
       ∧ Runtime.InMemoryEventStore.list clock (Runtime.store_after history)
         = (Ok history, Runtime.store_after history)
       ∧ Runtime.FormationRepository.getById id clock (Runtime.store_after history)
         = (Ok (Formation.fromState (FormationRepository.state id history)),
            Runtime.store_after history)).
Proof.
  split.
  - intros s id. split; [apply list_typed|apply getById_typed].
  - intros history id. split_and!.
    + apply store_after_typed.
    + rewrite store_after_toState. apply Forall_map, Forall_true.
      intros e. by eexists.
    + by rewrite store_after_typed, list_typed, list_store_after.
    + by rewrite store_after_typed, getById_typed, getById_store_after.
Qed.

(** ** What [getById] depends on *)

Lemma state_of_aggregate (id : string) (l l' : list DomainEvent.t) :
  of_aggregate id l = of_aggregate id l' →
  FormationRepository.state id l = FormationRepository.state id l'.
Proof.
  intros H. unfold FormationRepository.state.
  by rewrite !eventsForAggregate_of_aggregate, H.
Qed.

Lemma of_aggregate_app (id : string) (l1 l2 : list DomainEvent.t) :
  of_aggregate id (l1 ++ l2) = of_aggregate id l1 ++ of_aggregate id l2.
Proof. apply filter_app. Qed.

Lemma of_aggregate_others (id : string) (l : list DomainEvent.t) :
  Forall (λ e, DomainEvent.aggregateId e ≠ VString id) l →
  of_aggregate id l = [].
Proof.
  unfold of_aggregate. induction 1 as [|e l He _ IH]; [done|].
  by rewrite filter_cons_False.
Qed.

(** X4.  [getById id] sees the events of aggregate [id] and no other:
    events of other aggregates appended before, between or after them
    change nothing of what it returns.  In particular persisting another
    aggregate leaves the aggregate read for [id] as it was. *)
Theorem getById_ignores_other_aggregates
    (before between after : list DomainEvent.t) (mine1 mine2 : list DomainEvent.t)
    (id : string) :
  Forall (λ e, DomainEvent.aggregateId e ≠ VString id) before →
  Forall (λ e, DomainEvent.aggregateId e ≠ VString id) between →
  Forall (λ e, DomainEvent.aggregateId e ≠ VString id) after →
  fst (FormationRepository.getById id
         (store_after (before ++ mine1 ++ between ++ mine2 ++ after)))
  = fst (FormationRepository.getById id (store_after (mine1 ++ mine2))).
Proof.
  intros H1 H2 H3. rewrite !getById_store_after. simpl. do 2 f_equal.
  apply state_of_aggregate. rewrite !of_aggregate_app.
  rewrite (of_aggregate_others id before H1), (of_aggregate_others id between H2),
    (of_aggregate_others id after H3).
  by rewrite app_nil_r.
Qed.

Lemma getById_ignores_other_aggregates_witness :
  fst (FormationRepository.getById "X"
         (store_after
            ([creee "Y" "Autre" 7 Race.t0]
               ++ [RaceHeap.created]
               ++ [planifiee (VString "Y") (mk_appel "2022" "Zoe" Race.t2)]
               ++ [RaceHeap.alice]
               ++ [planifiee VUndefined (mk_appel "2023" "Nul" Race.t2)])))
  = fst (FormationRepository.getById "X"
           (store_after ([RaceHeap.created] ++ [RaceHeap.alice]))).
Proof.
  apply (getById_ignores_other_aggregates
           [creee "Y" "Autre" 7 Race.t0]
           [planifiee (VString "Y") (mk_appel "2022" "Zoe" Race.t2)]
           [planifiee VUndefined (mk_appel "2023" "Nul" Race.t2)]
           [RaceHeap.created] [RaceHeap.alice] "X");
    repeat constructor; simpl; discriminate.
Defined.

(** X5.  What [getById] returns never has pending events, so persisting
    an aggregate just read, without a call that changes it, appends
    nothing: the store is as it was, for every store, also when [getById]
    throws. *)
Theorem getById_then_persist_appends_nothing (s : store) (id : string) :
  snd ((f ← FormationRepository.getById id; FormationRepository.persist f) s) = s
  ∧ fst ((f ← FormationRepository.getById id; FormationRepository.persist f) s)
    = fst (FormationRepository.getById id s)
  ∧ match fst (FormationRepository.getById id s) with
    | Ok f => Formation.events f = []
    | Throw _ => True
    end.
Proof.
  unfold mbind, M_bind. rewrite getById_run.
  destruct (InMemoryEventStore.list s) as [[listed|e] s1].
  - rewrite persist_run. cbn [fst snd]. rewrite fromState_fields.
    cbn [Formation.events map]. by rewrite app_nil_r.
  - done.
Qed.

(** ** Last write wins, in one pass *)

Lemma ltb_le_trans (a b c : string) :
  String.ltb a b = true → not_later b c → String.ltb a c = true.
Proof.
  unfold not_later. intros Hab Hcb.
  destruct (String.ltb a c) eqn:Hac; [done|].
  assert (c = a ∨ String.ltb c a = true) as [->|Hca].
  { unfold String.ltb in *. rewrite (String.compare_antisym a c) in Hac.
    destruct (String.compare c a) eqn:Hcmp; try done; [|by right].
    left. by apply String.compare_eq_iff. }
  - congruence.
  - by rewrite (ltb_trans _ _ _ Hca Hab) in Hcb.
Qed.

Lemma not_later_trans (a b c : string) :
  not_later a b → not_later b c → not_later a c.
Proof.
  intros Hab Hbc. unfold not_later.
  destruct (String.ltb c a) eqn:Hca; [|done].
  pose proof (ltb_le_trans c a b Hca Hab) as Hcb.
  unfold not_later in Hbc. congruence.
Qed.

Section OnePass.
Context (k : string).

Local Abbreviation ts := DomainEvent.createdAt.
Local Abbreviation last_writer l := (last (filter (writes k) l)).

Lemma last_write_last_writer (l : list DomainEvent.t) :
  last_write k l = last_writer l ≫= λ e, DomainEvent.changes e !! k.
Proof.
  unfold last_write. induction l as [|x l IH] using rev_ind; [done|].
  rewrite omap_app, filter_app. simpl.
  destruct (DomainEvent.changes x !! k) as [v|] eqn:Hx.
  - rewrite filter_cons_True by (by eexists).
    rewrite filter_nil, !last_snoc. simpl. by rewrite Hx.
  - rewrite filter_cons_False by (intros [? ?]; unfold writes in *; congruence).
    by rewrite filter_nil, !app_nil_r.
Qed.

Lemma last_writer_cons (x : DomainEvent.t) (l : list DomainEvent.t) :
  last_writer (x :: l)
  = match last_writer l with
    | Some z => Some z
    | None => if decide (writes k x) then Some x else None
    end.
Proof.
  rewrite filter_cons. destruct (decide (writes k x)); [|by destruct (last _)].
  apply last_cons.
Qed.

Lemma last_writer_above (e y : DomainEvent.t) (ys : list DomainEvent.t)
    (b : DomainEvent.t) :
  ascending (y :: ys) → String.ltb (ts e) (ts y) = true →
  last_writer (y :: ys) = Some b → String.ltb (ts e) (ts b) = true.
Proof.
  intros Hasc Hey Hb. apply last_Some_elem_of, list_elem_of_filter in Hb as [_ Hb].
  apply StronglySorted_inv in Hasc as [_ Hy].
  apply elem_of_cons in Hb as [->|Hb]; [done|].
  eapply ltb_le_trans; [exact Hey|]. by eapply Forall_forall in Hy.
Qed.

Lemma last_writer_insert (e : DomainEvent.t) (l : list DomainEvent.t) :
  ascending l →
  last_writer (ArraySort.insert FormationRepository.comparefn e l)
  = overtakes k (last_writer l) e.
Proof.
  induction l as [|y ys IH]; intros Hasc.
  - unfold overtakes. simpl. rewrite filter_cons, filter_nil.
    by destruct (decide (writes k e)).
  - cbn [ArraySort.insert]. rewrite comparefn_neg.
    destruct (String.ltb (ts e) (ts y)) eqn:Hey.
    + rewrite (last_writer_cons e (y :: ys)). unfold overtakes.
      destruct (last_writer (y :: ys)) as [b|] eqn:Hb.
      * rewrite (last_writer_above e y ys b Hasc Hey Hb).
        by destruct (decide (writes k e)).
      * by destruct (decide (writes k e)).
    + rewrite (last_writer_cons y (ArraySort.insert _ e ys)), (last_writer_cons y ys).
      rewrite IH by (by apply StronglySorted_inv in Hasc as [? _]).
      unfold overtakes. destruct (decide (writes k e)).
      * destruct (last_writer ys) as [b|];
          [by destruct (String.ltb (ts e) (ts b))|].
        destruct (decide (writes k y)); [by rewrite Hey|done].
      * done.
Qed.

Lemma last_writer_sort (l : list DomainEvent.t) :
  last_writer (ArraySort.sort FormationRepository.comparefn l) = winner k l.
Proof.
  unfold ArraySort.sort, winner.
  enough (H : ∀ acc, ascending acc →
    last_writer (fold_left (λ placed x,
      ArraySort.insert FormationRepository.comparefn x placed) l acc)
    = fold_left (overtakes k) l (last_writer acc))
    by (apply (H []); constructor).
  induction l as [|x l IH]; intros acc Hacc; simpl; [done|].
  rewrite IH by (by apply insert_ascending). by rewrite last_writer_insert.
Qed.

End OnePass.

(** X6.  The state [getById] folds is what one pass over the log, in append
    order and without sorting, gives: for each key, the value comes from
    the event of the aggregate that has the key and the latest timestamp,
    and of several such events with that timestamp the one appended last. *)
Theorem state_is_one_pass_winner (history : list DomainEvent.t) (id k : string) :
  FormationRepository.state id history !! k
  = winner k (of_aggregate id history) ≫= λ e, DomainEvent.changes e !! k.
Proof.
  unfold FormationRepository.state.
  rewrite eventsForAggregate_of_aggregate, reduce_lookup.
  by rewrite last_write_last_writer, last_writer_sort.
Qed.

(** ** Events stored twice *)

Section Repeated.
Context (k : string).

Local Abbreviation ts := DomainEvent.createdAt.

(** A pass that starts from [b] ends on [b] or on the winner of the pass
    alone, whichever is stamped later, the winner of the pass on a tie. *)
Lemma fold_overtakes_from (l : list DomainEvent.t) (b : option DomainEvent.t) :
  fold_left (overtakes k) l b
  = match winner k l with
    | None => b
    | Some m =>
        match b with
        | None => Some m
        | Some b0 => if String.ltb (ts m) (ts b0) then Some b0 else Some m
        end
    end.
Proof.
  unfold winner. induction l as [|e l IH] using rev_ind; [done|].
  rewrite !fold_left_app. cbn [fold_left]. rewrite IH.
  destruct (fold_left (overtakes k) l None) as [m|]; unfold overtakes;
    destruct (decide (writes k e)); try done; destruct b as [b0|]; try done.
  - destruct (String.ltb (ts m) (ts b0)) eqn:Hmb,
      (String.ltb (ts e) (ts m)) eqn:Hem;
      rewrite ?Hmb; try done.
    + by rewrite (ltb_trans _ _ _ Hem Hmb).
    + destruct (String.ltb (ts e) (ts b0)) eqn:Heb; [|done].
      pose proof (ltb_le_trans _ _ _ Heb Hmb) as Hem'. congruence.
  - by destruct (String.ltb (ts e) (ts m)).
Qed.

Lemma fold_overtakes_twice (l : list DomainEvent.t) (b : option DomainEvent.t) :
  fold_left (overtakes k) l (fold_left (overtakes k) l b)
  = fold_left (overtakes k) l b.
Proof.
  rewrite (fold_overtakes_from l (fold_left (overtakes k) l b)).
  rewrite (fold_overtakes_from l b).
  destruct (winner k l) as [m|]; [|done]. destruct b as [b0|].
  - destruct (String.ltb (ts m) (ts b0)) eqn:Hmb; [by rewrite Hmb|].
    by rewrite ltb_irrefl.
  - by rewrite ltb_irrefl.
Qed.

Lemma winner_repeated (l1 l2 l3 : list DomainEvent.t) :
  winner k (l1 ++ l2 ++ l2 ++ l3) = winner k (l1 ++ l2 ++ l3).
Proof.
  unfold winner. rewrite !fold_left_app. by rewrite fold_overtakes_twice.
Qed.

End Repeated.

Lemma forEach_add_store_after (history later : list DomainEvent.t) :
  forEach later (λ e, InMemoryEventStore.add e) (store_after history)
  = (Ok tt, store_after (history ++ later)).
Proof. by rewrite forEach_add, !store_after_map, map_app. Qed.

(** X7.  Events stored twice do not change what is read: when the pending
    events of an aggregate are in the store twice in a row, as after two
    calls of [persist] on it, [getById] of every id returns what it
    returns when they are there once, whatever was stored before and is
    stored after. *)
Theorem getById_ignores_repeated_persist
    (history later : list DomainEvent.t) (f : Formation.t) (id : string) :
  fst ((FormationRepository.persist f;; FormationRepository.persist f;;
        forEach later (λ e, InMemoryEventStore.add e);;
        FormationRepository.getById id) (store_after history))
  = fst ((FormationRepository.persist f;;
          forEach later (λ e, InMemoryEventStore.add e);;
          FormationRepository.getById id) (store_after history))
  ∧ snd ((FormationRepository.persist f;; FormationRepository.persist f;;
          forEach later (λ e, InMemoryEventStore.add e);;
          FormationRepository.getById id) (store_after history))
    = store_after (history ++ Formation.events f ++ Formation.events f ++ later).
Proof.
  unfold mbind, M_bind.
  rewrite !persist_store_after, !forEach_add_store_after.
  rewrite !getById_store_after, <- !app_assoc. cbn [fst snd].
  split; [|done]. do 2 f_equal. apply map_eq. intros k.
  unfold FormationRepository.state.
  rewrite !eventsForAggregate_of_aggregate, !reduce_lookup.
  rewrite !last_write_last_writer, !last_writer_sort, !of_aggregate_app.
  by rewrite winner_repeated.
Qed.

(** ** The order of appending *)

Lemma stamped_at_most_one (t : string) (l : list DomainEvent.t) :
  NoDup (map DomainEvent.createdAt l) → (length (stamped t l) ≤ 1)%nat.
Proof.
  induction l as [|x l IH]; simpl; [lia|].
  intros Hnd. apply NoDup_cons in Hnd as [Hx Hnd].
  rewrite stamped_cons. case_decide as Ht; [|by apply IH].
  assert (Hnil : stamped t l = []).
  { destruct (stamped t l) as [|y ys] eqn:Hy; [done|]. exfalso. apply Hx.
    assert (Hin : y ∈ stamped t l) by (rewrite Hy; left).
    unfold stamped in Hin. apply list_elem_of_filter in Hin as [Hty Hin].
    apply list_elem_of_fmap. exists y. split; [congruence|done]. }
  rewrite Hnil. simpl. lia.
Qed.

Lemma stamped_permutation (t : string) (l l' : list DomainEvent.t) :
  l ≡ₚ l' → NoDup (map DomainEvent.createdAt l) → stamped t l = stamped t l'.
Proof.
  intros Hperm Hnd. pose proof (stamped_at_most_one t l Hnd) as Hlen.
  assert (Hp : stamped t l ≡ₚ stamped t l') by (unfold stamped; by rewrite Hperm).
  destruct (stamped t l) as [|x [|??]]; simpl in Hlen; [| |lia].
  - by apply Permutation_nil_l.
  - by apply Permutation_singleton_l.
Qed.

(** X8.  When the events of an aggregate carry pairwise different
    timestamps, the order in which they were appended does not matter:
    two stores that hold the same events of the aggregate, in whatever
    orders, give the same aggregate. *)
Theorem getById_order_free_when_stamps_differ
    (history history' : list DomainEvent.t) (id : string) :
  of_aggregate id history ≡ₚ of_aggregate id history' →
  NoDup (map DomainEvent.createdAt (of_aggregate id history)) →
  fst (FormationRepository.getById id (store_after history))
  = fst (FormationRepository.getById id (store_after history')).
Proof.
  intros Hperm Hnd. rewrite !getById_store_after. cbn [fst]. do 2 f_equal.
  unfold FormationRepository.state. rewrite !eventsForAggregate_of_aggregate.
  do 2 f_equal.
  destruct (sort_spec (of_aggregate id history)) as (_ & Hasc & Hst).
  destruct (sort_spec (of_aggregate id history')) as (_ & Hasc' & Hst').
  apply ascending_stable_unique; [done..|].
  intros t. rewrite Hst, Hst'. by apply stamped_permutation.
Qed.

Lemma getById_order_free_when_stamps_differ_witness :
  fst (FormationRepository.getById "X"
         (store_after [RaceHeap.created; RaceHeap.bob; RaceHeap.alice]))
  = fst (FormationRepository.getById "X"
           (store_after [RaceHeap.alice; RaceHeap.created; RaceHeap.bob])).
Proof.
  apply (getById_order_free_when_stamps_differ
           [RaceHeap.created; RaceHeap.bob; RaceHeap.alice]
           [RaceHeap.alice; RaceHeap.created; RaceHeap.bob] "X").
  - vm_compute. apply perm_trans with [RaceHeap.created; RaceHeap.alice; RaceHeap.bob].
    + apply perm_skip, perm_swap.
    + apply perm_swap.
  - apply (bool_decide_unpack _). vm_compute. exact I.
Defined.

(** ** Sequences of calls on an aggregate *)

Lemma planifier_snoc (f : Formation.t) (calls : list Appel) (c : Appel) :
  planifier f (calls ++ [c])
  = Formation.planifierLe (planifier f calls)
      (a_date c) (a_nomFormateur c) (a_now c).
Proof. unfold planifier. by rewrite fold_left_app. Qed.

(** X9.  Whatever calls of [planifierLe] are made on an aggregate, each
    adds exactly one FormationPlanifiee event for the aggregate's id, in
    call order, after the events that were pending; id, name and duration
    never change, and the date and the instructor are those of the last
    call.  After [creer] the pending list is the creation event followed
    by one event per call. *)
Theorem planifier_records_every_call (f : Formation.t) (calls : list Appel) :
  (Formation.events (planifier f calls)
   = Formation.events f ++ map (planifiee (Formation.id f)) calls
   ∧ Formation.id (planifier f calls) = Formation.id f
   ∧ Formation.nom (planifier f calls) = Formation.nom f
   ∧ Formation.dureeEnHeures (planifier f calls) = Formation.dureeEnHeures f
   ∧ Formation.date (planifier f calls)
     = from_option (λ c, VString (a_date c)) (Formation.date f) (last calls)
   ∧ Formation.nomFormateur (planifier f calls)
     = from_option (λ c, VString (a_nomFormateur c)) (Formation.nomFormateur f)
         (last calls))
  ∧ ∀ (id nom : string) (dureeEnHeures : Z) (now : string),
      Formation.events (planifier (Formation.creer id nom dureeEnHeures now) calls)
      = creee id nom dureeEnHeures now :: map (planifiee (VString id)) calls.
Proof.
  assert (Hgen : ∀ f0,
    Formation.events (planifier f0 calls)
    = Formation.events f0 ++ map (planifiee (Formation.id f0)) calls
    ∧ Formation.id (planifier f0 calls) = Formation.id f0
    ∧ Formation.nom (planifier f0 calls) = Formation.nom f0
    ∧ Formation.dureeEnHeures (planifier f0 calls) = Formation.dureeEnHeures f0
    ∧ Formation.date (planifier f0 calls)
      = from_option (λ c, VString (a_date c)) (Formation.date f0) (last calls)
    ∧ Formation.nomFormateur (planifier f0 calls)
      = from_option (λ c, VString (a_nomFormateur c)) (Formation.nomFormateur f0)
          (last calls)).
  { intros f0. induction calls as [|c calls IH] using rev_ind.
    - simpl. by rewrite app_nil_r.
    - destruct IH as (Hev & Hid & Hnom & Hd & _).
      rewrite planifier_snoc, planifierLe_fields, last_snoc, map_app.
      cbn [Formation.events Formation.id Formation.nom Formation.dureeEnHeures
           Formation.date Formation.nomFormateur from_option map].
      rewrite Hev, Hid, <- app_assoc. by split_and!. }
  split; [apply Hgen|].
  intros id nom d now. by destruct (Hgen (Formation.creer id nom d now)) as [-> _].
Qed.

Lemma planifier_events (f : Formation.t) (calls : list Appel) :
  Formation.events (planifier f calls)
  = Formation.events f ++ map (planifiee (Formation.id f)) calls.
Proof.
  induction calls as [|c calls IH] using rev_ind.
  - simpl. by rewrite app_nil_r.
  - rewrite planifier_snoc, planifierLe_fields, map_app. cbn [Formation.events map].
    rewrite IH, <- app_assoc. do 3 f_equal.
    clear IH. induction calls as [|c' calls IH] using rev_ind; [done|].
    by rewrite planifier_snoc, planifierLe_fields.
Qed.

Lemma planifier_id (f : Formation.t) (calls : list Appel) :
  Formation.id (planifier f calls) = Formation.id f.
Proof.
  induction calls as [|c calls IH] using rev_ind; [done|].
  by rewrite planifier_snoc, planifierLe_fields.
Qed.

Lemma committed_planifierLe (f : Formation.t) (date nomFormateur now : string) :
  committed (Formation.planifierLe f date nomFormateur now)
  = Formation.mk (Formation.id f) (Formation.nom f) (Formation.dureeEnHeures f)
      (VString date) (VString nomFormateur) [].
Proof. by rewrite planifierLe_fields. Qed.

(** ** Persisting, then reading *)

Lemma StronglySorted_snoc_inv {A : Type} (R : A → A → Prop) (l : list A) (x : A) :
  StronglySorted R (l ++ [x]) → StronglySorted R l ∧ Forall (λ y, R y x) l.
Proof.
  induction l as [|y l IH]; simpl; intros H; [by split; constructor|].
  apply StronglySorted_inv in H as [H Hy]. destruct (IH H) as [Hl Hx].
  rewrite Forall_app, Forall_singleton in Hy. destruct Hy as [Hy Hyx].
  split; constructor; assumption.
Qed.

(** The calls are made with a clock that does not go back: no call is
    stamped earlier than an event the store or the aggregate already holds
    for [id], nor than an earlier call. *)
Lemma reload_after_calls (history : list DomainEvent.t) (id : string)
    (f : Formation.t) (calls : list Appel) :
  Formation.id f = VString id →
  Formation.fromState (FormationRepository.state id (history ++ Formation.events f))
  = committed f →
  Forall (λ c, clock_not_behind (a_now c) id (history ++ Formation.events f)) calls →
  StronglySorted not_later (map a_now calls) →
  Formation.fromState
    (FormationRepository.state id (history ++ Formation.events (planifier f calls)))
  = committed (planifier f calls).
Proof.
  intros Hid Hsync. induction calls as [|c calls IH] using rev_ind;
    intros Hclock Hsorted; [done|].
  rewrite Forall_app, Forall_singleton in Hclock. destruct Hclock as [Hclock Hc].
  rewrite map_app in Hsorted.
  apply StronglySorted_snoc_inv in Hsorted as [Hsorted' Hlast].
  specialize (IH Hclock Hsorted').
  rewrite planifier_snoc, committed_planifierLe.
  rewrite planifierLe_fields. cbn [Formation.events].
  rewrite app_assoc, state_snoc_latest.
  - cbn [DomainEvent.changes]. rewrite fromState_spread_schedule, IH. done.
  - cbn [DomainEvent.aggregateId]. by rewrite planifier_id.
  - cbn [DomainEvent.createdAt]. unfold clock_not_behind in *.
    rewrite planifier_events, app_assoc, of_aggregate_app.
    apply Forall_app. split; [done|].
    unfold of_aggregate. apply Forall_forall. intros e He.
    apply list_elem_of_filter in He as [_ He].
    apply list_elem_of_fmap in He as (c' & -> & Hc').
    cbn [planifiee DomainEvent.createdAt].
    eapply Forall_forall in Hlast; [exact Hlast|].
    apply list_elem_of_fmap. by exists c'.
Qed.

Lemma state_without_events (id : string) (history : list DomainEvent.t) :
  of_aggregate id history = [] → FormationRepository.state id history = ∅.
Proof.
  intros H. unfold FormationRepository.state.
  by rewrite eventsForAggregate_of_aggregate, H.
Qed.

Lemma persist_then_getById (history : list DomainEvent.t) (f : Formation.t)
    (id : string) :
  (FormationRepository.persist f;; FormationRepository.getById id)
    (store_after history)
  = (Ok (Formation.fromState
           (FormationRepository.state id (history ++ Formation.events f))),
     store_after (history ++ Formation.events f)).
Proof.
  unfold mbind, M_bind. by rewrite persist_store_after, getById_store_after.
Qed.

(** X10.  Persisting, then reading, gives back the aggregate that was
    built in memory: for an aggregate created with an id the store has no
    event of, then scheduled any number of times with a clock that does
    not go back, [persist] followed by [getById] of its id returns an
    aggregate with the same id, name, duration, date and instructor, and
    no pending event. *)
Theorem creer_planifier_persist_getById
    (history : list DomainEvent.t) (id nom : string) (dureeEnHeures : Z)
    (now : string) (calls : list Appel) :
  of_aggregate id history = [] →
  StronglySorted not_later (now :: map a_now calls) →
  (FormationRepository.persist
     (planifier (Formation.creer id nom dureeEnHeures now) calls);;
   FormationRepository.getById id) (store_after history)
  = (Ok (committed (planifier (Formation.creer id nom dureeEnHeures now) calls)),
     store_after
       (history
          ++ creee id nom dureeEnHeures now :: map (planifiee (VString id)) calls)).
Proof.
  intros Hnone Hsorted. apply StronglySorted_inv in Hsorted as [Hsorted Hnow].
  rewrite persist_then_getById, planifier_events.
  change (Formation.events (Formation.creer id nom dureeEnHeures now))
    with [creee id nom dureeEnHeures now].
  change (Formation.id (Formation.creer id nom dureeEnHeures now)) with (VString id).
  f_equal. f_equal.
  rewrite <- (planifier_events (Formation.creer id nom dureeEnHeures now)).
  apply (reload_after_calls history id); [done| | |done].
  - change (Formation.events (Formation.creer id nom dureeEnHeures now))
      with [creee id nom dureeEnHeures now].
    rewrite state_snoc_latest; [|done|].
    + rewrite (state_without_events id history Hnone).
      unfold spread. by rewrite (right_id_L ∅ (∪)).
    + unfold clock_not_behind. rewrite Hnone. constructor.
  - change (Formation.events (Formation.creer id nom dureeEnHeures now))
      with [creee id nom dureeEnHeures now].
    apply Forall_forall. intros c Hc. unfold clock_not_behind.
    rewrite of_aggregate_app, Hnone. unfold of_aggregate.
    rewrite filter_cons_True by done. constructor; [|constructor].
    eapply Forall_forall in Hnow; [exact Hnow|].
    apply list_elem_of_fmap. by exists c.
Qed.

Lemma creer_planifier_persist_getById_witness :
  (FormationRepository.persist
     (planifier (Formation.creer "X" "Name" 10 Race.t0)
        [mk_appel "2021-05-01" "Alice" Race.t1;
         mk_appel "2021-06-01" "Bob" Race.t1]);;
   FormationRepository.getById "X")
    (store_after [creee "Y" "Autre" 7 Race.t2])
  = (Ok (committed
           (planifier (Formation.creer "X" "Name" 10 Race.t0)
              [mk_appel "2021-05-01" "Alice" Race.t1;
               mk_appel "2021-06-01" "Bob" Race.t1])),
     store_after
       ([creee "Y" "Autre" 7 Race.t2]
          ++ creee "X" "Name" 10 Race.t0
             :: map (planifiee (VString "X"))
                  [mk_appel "2021-05-01" "Alice" Race.t1;
                   mk_appel "2021-06-01" "Bob" Race.t1])).
Proof.
  apply (creer_planifier_persist_getById [creee "Y" "Autre" 7 Race.t2]
           "X" "Name" 10 Race.t0
           [mk_appel "2021-05-01" "Alice" Race.t1;
            mk_appel "2021-06-01" "Bob" Race.t1]).
  - vm_compute. reflexivity.
  - repeat match goal with
           | |- not_later _ _ => vm_compute; reflexivity
           | |- _ => constructor
           end.
Defined.

(** X11.  The same for an aggregate that was read from the store: when
    the aggregate [getById] returned for [id] carries that id and is
    scheduled any number of times with a clock that does not go back
    behind the stored events of the aggregate, [persist] followed by
    [getById] returns the aggregate as it is in memory, without pending
    events; the store has gained one event per call. *)
Theorem getById_planifier_persist_getById
    (history : list DomainEvent.t) (id : string) (f : Formation.t)
    (calls : list Appel) :
  FormationRepository.getById id (store_after history)
  = (Ok f, store_after history) →
  Formation.id f = VString id →
  Forall (λ c, clock_not_behind (a_now c) id history) calls →
  StronglySorted not_later (map a_now calls) →
  (FormationRepository.persist (planifier f calls);;
   FormationRepository.getById id) (store_after history)
  = (Ok (committed (planifier f calls)),
     store_after (history ++ map (planifiee (VString id)) calls)).
Proof.
  rewrite getById_store_after. intros [= Hf] Hid Hclock Hsorted.
  assert (Hnil : Formation.events f = []) by (by rewrite <- Hf).
  rewrite persist_then_getById.
  rewrite (reload_after_calls history id f calls Hid).
  - by rewrite planifier_events, Hnil, Hid.
  - rewrite Hnil, app_nil_r, Hf. by destruct f; simpl in *; subst.
  - by rewrite Hnil, app_nil_r.
  - done.
Qed.

Lemma getById_planifier_persist_getById_witness :
  (FormationRepository.persist
     (planifier (Formation.mk (VString "X") (VString "Name") (VNumber 10)
                   VNull VNull [])
        [mk_appel "2021-05-01" "Alice" Race.t1;
         mk_appel "2021-06-01" "Bob" Race.t2]);;
   FormationRepository.getById "X") (store_after [RaceHeap.created])
  = (Ok (committed
           (planifier (Formation.mk (VString "X") (VString "Name") (VNumber 10)
                         VNull VNull [])
              [mk_appel "2021-05-01" "Alice" Race.t1;
               mk_appel "2021-06-01" "Bob" Race.t2])),
     store_after
       ([RaceHeap.created]
          ++ map (planifiee (VString "X"))
               [mk_appel "2021-05-01" "Alice" Race.t1;
                mk_appel "2021-06-01" "Bob" Race.t2])).
Proof.
  apply (getById_planifier_persist_getById [RaceHeap.created] "X"
           (Formation.mk (VString "X") (VString "Name") (VNumber 10) VNull VNull [])
           [mk_appel "2021-05-01" "Alice" Race.t1;
            mk_appel "2021-06-01" "Bob" Race.t2]).
  - vm_compute. reflexivity.
  - reflexivity.
  - repeat match goal with
           | |- not_later _ _ => vm_compute; reflexivity
           | |- _ => constructor
           end.
  - repeat match goal with
           | |- not_later _ _ => vm_compute; reflexivity
           | |- _ => constructor
           end.
Defined.

(** ** The demo driver: two tasks on one aggregate *)

(** X12.  When the function [planifierFormationFn] returns runs twice on
    one aggregate, as the demo does with the aggregate it read once, the
    second run persists again what the first persisted: the store gains
    the pending events and the first scheduling event twice, then the
    second scheduling event.  What is read afterwards is nevertheless what
    would be read had the aggregate been persisted once, at the end. *)
Theorem planifierFormation_twice
    (history : list DomainEvent.t) (f : Formation.t) (id : string)
    (date1 now1 date2 now2 : string) :
  let e1 := planifiee (Formation.id f) (mk_appel date1 "SRE" now1) in
  let e2 := planifiee (Formation.id f) (mk_appel date2 "SRE" now2) in
  let f2 := planifier f [mk_appel date1 "SRE" now1; mk_appel date2 "SRE" now2] in
  (f1 ← planifierFormation f date1 now1; planifierFormation f1 date2 now2)
    (store_after history)
  = (Ok f2,
     store_after
       (history ++ (Formation.events f ++ [e1])
                ++ (Formation.events f ++ [e1]) ++ [e2]))
  ∧ Formation.events f2 = Formation.events f ++ [e1; e2]
  ∧ fst ((f1 ← planifierFormation f date1 now1;
          planifierFormation f1 date2 now2;;
          FormationRepository.getById id) (store_after history))
    = fst ((FormationRepository.persist f2;; FormationRepository.getById id)
             (store_after history)).
Proof.
  intros e1 e2 f2.
  assert (Hev1 : Formation.events (Formation.planifierLe f date1 "SRE" now1)
    = Formation.events f ++ [e1]) by (by rewrite planifierLe_fields).
  assert (Hev2 : Formation.events f2 = Formation.events f ++ [e1; e2]).
  { unfold f2. by rewrite planifier_events. }
  assert (Hf2 : Formation.planifierLe (Formation.planifierLe f date1 "SRE" now1)
    date2 "SRE" now2 = f2) by done.
  assert (Hrun : (f1 ← planifierFormation f date1 now1;
                  planifierFormation f1 date2 now2) (store_after history)
    = (Ok f2, store_after (history ++ (Formation.events f ++ [e1])
                ++ (Formation.events f ++ [e1]) ++ [e2]))).
  { unfold planifierFormation, mbind, M_bind.
    rewrite persist_store_after, Hev1, Hf2, persist_store_after, Hev2.
    do 2 f_equal. rewrite <- !app_assoc. done. }
  split_and!; [done..|].
  rewrite persist_then_getById, Hev2.
  unfold planifierFormation, mbind, M_bind.
  rewrite persist_store_after, Hev1, Hf2, persist_store_after, Hev2.
  rewrite getById_store_after. cbn [fst]. do 2 f_equal.
  apply map_eq. intros k. unfold FormationRepository.state.
  rewrite !eventsForAggregate_of_aggregate, !reduce_lookup.
  rewrite !last_write_last_writer, !last_writer_sort.
  replace (history ++ Formation.events f ++ [e1; e2])
    with (history ++ (Formation.events f ++ [e1]) ++ [e2])
    by (by rewrite <- !app_assoc).
  replace ((history ++ Formation.events f ++ [e1]) ++ Formation.events f ++ [e1; e2])
    with (history ++ (Formation.events f ++ [e1])
            ++ (Formation.events f ++ [e1]) ++ [e2])
    by (by rewrite <- !app_assoc).
  rewrite !of_aggregate_app. by rewrite winner_repeated.
Qed.

(** ** Edge cases of the write path *)

(** X13.  A scheduling made on the aggregate [getById] returns for an id
    without events is lost: the aggregate has no id, so the event it emits
    is recorded for no aggregate, and after [persist] every [getById], of
    that id or of another, returns what it returned before. *)
Theorem scheduling_an_unknown_aggregate_is_lost
    (history : list DomainEvent.t) (id id' : string)
    (date nomFormateur now : string) :
  Forall (λ e, DomainEvent.aggregateId e ≠ VString id) history →
  ∃ f : Formation.t,
    FormationRepository.getById id (store_after history)
    = (Ok f, store_after history)
    ∧ Formation.events (Formation.planifierLe f date nomFormateur now)
      = [planifiee VUndefined (mk_appel date nomFormateur now)]
    ∧ (FormationRepository.persist
         (Formation.planifierLe f date nomFormateur now);;
       FormationRepository.getById id') (store_after history)
      = (fst (FormationRepository.getById id' (store_after history)),
         store_after
           (history ++ [planifiee VUndefined (mk_appel date nomFormateur now)])).
Proof.
  intros Hnone. eexists. split; [apply getById_store_after|].
  rewrite (state_without_events id history (of_aggregate_others id history Hnone)).
  rewrite fromState_empty, planifierLe_fields. cbn [Formation.events Formation.id app].
  split; [done|].
  rewrite persist_then_getById, getById_store_after. cbn [Formation.events fst].
  do 3 f_equal. apply state_of_aggregate.
  rewrite of_aggregate_app. unfold of_aggregate at 2.
  rewrite filter_cons_False by done. by rewrite filter_nil, app_nil_r.
Qed.

Lemma scheduling_an_unknown_aggregate_is_lost_witness :
  ∃ f : Formation.t,
    FormationRepository.getById "UNKNOWN" (store_after [RaceHeap.created])
    = (Ok f, store_after [RaceHeap.created])
    ∧ Formation.events (Formation.planifierLe f "2021-05-01" "Alice" Race.t1)
      = [planifiee VUndefined (mk_appel "2021-05-01" "Alice" Race.t1)]
    ∧ (FormationRepository.persist
         (Formation.planifierLe f "2021-05-01" "Alice" Race.t1);;
       FormationRepository.getById "UNKNOWN") (store_after [RaceHeap.created])
      = (fst (FormationRepository.getById "UNKNOWN" (store_after [RaceHeap.created])),
         store_after
           ([RaceHeap.created]
              ++ [planifiee VUndefined (mk_appel "2021-05-01" "Alice" Race.t1)])).
Proof.
  apply (scheduling_an_unknown_aggregate_is_lost [RaceHeap.created]
           "UNKNOWN" "UNKNOWN" "2021-05-01" "Alice" Race.t1).
  repeat constructor. simpl. discriminate.
Defined.

Lemma fromState_spread_creation (st : obj) (id nom : string) (dureeEnHeures : Z) :
  Formation.fromState
    (spread st {[ "id" := VString id; "nom" := VString nom;
                  "dureeEnHeures" := VNumber dureeEnHeures ]})
  = Formation.mk (VString id) (VString nom) (VNumber dureeEnHeures)
      (Formation.date (Formation.fromState st))
      (Formation.nomFormateur (Formation.fromState st)) [].
Proof.
  set (ch := ({[ "id" := VString id; "nom" := VString nom;
                 "dureeEnHeures" := VNumber dureeEnHeures ]} : obj)).
  assert (Hget : ∀ k, get (spread st ch) k
    = match ch !! k with Some v => v | None => get st k end).
  { intros k. unfold get, spread. rewrite lookup_union.
    by destruct (ch !! k), (st !! k). }
  rewrite !fromState_fields. cbn [Formation.date Formation.nomFormateur].
  rewrite !Hget.
  assert (Hid : ch !! "id" = Some (VString id)) by (by vm_compute).
  assert (Hnom : ch !! "nom" = Some (VString nom)) by (by vm_compute).
  assert (Hduree : ch !! "dureeEnHeures" = Some (VNumber dureeEnHeures))
    by (by vm_compute).
  assert (Hdate : ch !! "date" = None) by (by vm_compute).
  assert (Hform : ch !! "nomFormateur" = None) by (by vm_compute).
  by rewrite Hid, Hnom, Hduree, Hdate, Hform.
Qed.

(** X14.  [creer] does not look at the store: an aggregate created with
    an id the store already has events of is persisted like any other,
    and when its creation is not stamped earlier than those events, what
    is read for the id afterwards has the new name and duration and keeps
    the date and the instructor that were read before. *)
Theorem creer_again_overwrites_name_and_duration
    (history : list DomainEvent.t) (id nom : string) (dureeEnHeures : Z)
    (now : string) :
  clock_not_behind now id history →
  ∃ before : Formation.t,
    FormationRepository.getById id (store_after history)
    = (Ok before, store_after history)
    ∧ (FormationRepository.persist (Formation.creer id nom dureeEnHeures now);;
       FormationRepository.getById id) (store_after history)
      = (Ok (Formation.mk (VString id) (VString nom) (VNumber dureeEnHeures)
               (Formation.date before) (Formation.nomFormateur before) []),
         store_after (history ++ [creee id nom dureeEnHeures now])).
Proof.
  intros Hclock. eexists. split; [apply getById_store_after|].
  rewrite persist_then_getById.
  change (Formation.events (Formation.creer id nom dureeEnHeures now))
    with [creee id nom dureeEnHeures now].
  rewrite state_snoc_latest by done.
  unfold creee. cbn [DomainEvent.changes].
  by rewrite fromState_spread_creation.
Qed.

Lemma creer_again_overwrites_name_and_duration_witness :
  ∃ before : Formation.t,
    FormationRepository.getById "X"
      (store_after [RaceHeap.created; RaceHeap.alice])
    = (Ok before, store_after [RaceHeap.created; RaceHeap.alice])
    ∧ (FormationRepository.persist (Formation.creer "X" "Autre" 7 Race.t2);;
       FormationRepository.getById "X")
        (store_after [RaceHeap.created; RaceHeap.alice])
      = (Ok (Formation.mk (VString "X") (VString "Autre") (VNumber 7)
               (Formation.date before) (Formation.nomFormateur before) []),
         store_after
           ([RaceHeap.created; RaceHeap.alice] ++ [creee "X" "Autre" 7 Race.t2])).
Proof.
  apply (creer_again_overwrites_name_and_duration
           [RaceHeap.created; RaceHeap.alice] "X" "Autre" 7 Race.t2).
  repeat match goal with
           | |- not_later _ _ => vm_compute; reflexivity
           | |- _ => constructor
           end.
Defined.

(** ** Writes and object identity *)

(** X15.  With object identity, [add] creates one record object, puts it
    at the end of the store's array and writes to nothing else: every
    other object that existed is as it was, the store holds what it held
    followed by the new record, and the new record refers to the payload
    object of the event it was given, not to a copy. *)
Theorem add_appends_one_record_sharing_the_payload
    (h : Heap.heap) (events event : Heap.loc) (s : store) (ev : DomainEvent.t) :
  Heap.contents h events = Some s →
  Heap.instance_at h event = Some ev →
  ∃ (h' : Heap.heap) (records : list Heap.loc) (r p : Heap.loc),
    Heap.InMemoryEventStore.add events event h = Some h'
    ∧ Heap.contents h' events = Some (s ++ [DomainEvent.toState ev])
    ∧ Heap.elements h events = Some records
    ∧ Heap.elements h' events = Some (records ++ [r])
    ∧ (r ∉ dom h)
    ∧ (∀ l, l ≠ events → l ∈ dom h → h' !! l = h !! l)
    ∧ Heap.changes_of h event = Some p
    ∧ Heap.changes_of_record h' r = Some p.
Proof.
  intros Hcontents Hevent.
  destruct (add_contents h events event s ev Hcontents Hevent) as (h' & Hadd & Hc').
  destruct (instance_at_cell h event ev Hevent) as (e & He & _).
  assert (Hrecords : ∃ records, h !! events = Some (Heap.Arr records)).
  { unfold Heap.contents, Heap.elements in Hcontents.
    destruct (h !! events) as [[]|]; try done. eauto. }
  destruct Hrecords as (records & Hev).
  pose proof Hadd as Hadd'. unfold Heap.InMemoryEventStore.add in Hadd'.
  rewrite He, Hev in Hadd'.
  destruct (alloc_fresh (Heap.Rec (Heap.toState e)) h) as (Hfresh & Hh1 & _).
  destruct (Heap.alloc (Heap.Rec (Heap.toState e)) h) as [r h1].
  cbn [fst snd] in Hfresh, Hh1. injection Hadd' as <-. subst h1.
  assert (Hr : r ≠ events).
  { intros ->. apply Hfresh. apply elem_of_dom. by eexists. }
  eexists _, records, r, (Heap.i_changes e). split_and!; try done.
  - unfold Heap.elements. by rewrite Hev.
  - unfold Heap.elements. by rewrite lookup_insert_eq.
  - intros l Hl Hin. rewrite lookup_insert_ne by done.
    rewrite lookup_insert_ne; [done|]. intros ->. by apply Hfresh.
  - unfold Heap.changes_of. by rewrite He.
  - unfold Heap.changes_of_record.
    by rewrite lookup_insert_ne, lookup_insert_eq.
Qed.

Lemma add_appends_one_record_sharing_the_payload_witness :
  ∃ (h' : Heap.heap) (records : list Heap.loc) (r p : Heap.loc),
    Heap.InMemoryEventStore.add Shared.events Shared.event Shared.h0 = Some h'
    ∧ Heap.contents h' Shared.events
      = Some ([] ++ [DomainEvent.toState Shared.created])
    ∧ Heap.elements Shared.h0 Shared.events = Some records
    ∧ Heap.elements h' Shared.events = Some (records ++ [r])
    ∧ (r ∉ dom Shared.h0)
    ∧ (∀ l, l ≠ Shared.events → l ∈ dom Shared.h0 → h' !! l = Shared.h0 !! l)
    ∧ Heap.changes_of Shared.h0 Shared.event = Some p
    ∧ Heap.changes_of_record h' r = Some p.
Proof.
  apply (add_appends_one_record_sharing_the_payload
           Shared.h0 Shared.events Shared.event [] Shared.created).
  - vm_compute. reflexivity.
  - vm_compute. reflexivity.
Defined.

(** X16.  An assignment to a property of a payload object shows in the
    store: afterwards the store has the same records in the same order,
    every record that refers to that object reads the new value of the
    key, and every other record reads what it read.  The store keeps no
    copy of a payload. *)
Theorem assign_shows_in_every_record_sharing_the_payload
    (h : Heap.heap) (events p : Heap.loc) (o : obj) (k : string) (v : value)
    (s : store) (records : list Heap.loc) :
  Heap.contents h events = Some s →
  Heap.elements h events = Some records →
  Heap.payload_at h p = Some o →
  Heap.elements (Heap.assign p k v h) events = Some records
  ∧ Heap.payload_at (Heap.assign p k v h) p = Some (<[k := v]> o)
  ∧ Heap.contents (Heap.assign p k v h) events
    = Some (zip_with (read_after_assign h p k v) records s).
Proof.
  intros Hcontents Hrecords Hp.
  assert (Hcell : h !! p = Some (Heap.Payload o)).
  { unfold Heap.payload_at in Hp. destruct (h !! p) as [[]|]; try done. congruence. }
  assert (Hassign : Heap.assign p k v h = <[p := Heap.Payload (<[k := v]> o)]> h).
  { unfold Heap.assign. by rewrite Hcell. }
  assert (Hne : ∀ l c, h !! l = Some c → (∀ o', c ≠ Heap.Payload o') →
    Heap.assign p k v h !! l = Some c).
  { intros l c Hl Hc. rewrite Hassign, lookup_insert_ne; [done|].
    intros <-. rewrite Hcell in Hl. injection Hl as <-. by eapply Hc. }
  assert (Harr : h !! events = Some (Heap.Arr records)).
  { unfold Heap.elements in Hrecords. destruct (h !! events) as [[]|]; try done.
    congruence. }
  assert (Hel : Heap.elements (Heap.assign p k v h) events = Some records).
  { unfold Heap.elements. by rewrite (Hne _ _ Harr). }
  split_and!; [done| |].
  - unfold Heap.payload_at. by rewrite Hassign, lookup_insert_eq.
  - unfold Heap.contents in *. rewrite Hel. rewrite Hrecords in Hcontents.
    simpl in *. apply mapM_Some. apply mapM_Some in Hcontents.
    clear Hrecords Harr Hel.
    induction Hcontents as [|r rv records' s' Hr _ IH]; [constructor|].
    cbn [zip_with]. constructor; [|exact IH].
    unfold Heap.record_at in Hr |- *. unfold read_after_assign, Heap.changes_of_record.
    destruct (h !! r) as [[|rec| |]|] eqn:Hcr; try done.
    rewrite (Hne _ _ Hcr) by done.
    destruct (Heap.payload_at h (Heap.r_changes rec)) as [o'|] eqn:Hpo; [|done].
    simpl in Hr. injection Hr as <-.
    unfold Heap.payload_at in Hpo |- *.
    destruct (decide (Some (Heap.r_changes rec) = Some p)) as [[= Heq]|Hneq].
    + rewrite Heq, Hassign, lookup_insert_eq. simpl.
      rewrite Heq, Hcell in Hpo. by injection Hpo as <-.
    + rewrite Hassign, lookup_insert_ne by congruence.
      destruct (h !! Heap.r_changes rec) as [[]|]; try done.
      simpl. by injection Hpo as <-.
Qed.

Lemma assign_shows_in_every_record_sharing_the_payload_witness :
  Heap.elements (Heap.assign Shared.payload "a" (VNumber 2) Shared.h1)
    Shared.events = Some [4%positive]
  ∧ Heap.payload_at (Heap.assign Shared.payload "a" (VNumber 2) Shared.h1)
      Shared.payload = Some (<["a" := VNumber 2]> {[ "a" := VNumber 1 ]})
  ∧ Heap.contents (Heap.assign Shared.payload "a" (VNumber 2) Shared.h1)
      Shared.events
    = Some (zip_with (read_after_assign Shared.h1 Shared.payload "a" (VNumber 2))
              [4%positive] (store_after [Shared.created])).
Proof.
  apply (assign_shows_in_every_record_sharing_the_payload
           Shared.h1 Shared.events Shared.payload {[ "a" := VNumber 1 ]}
           "a" (VNumber 2) (store_after [Shared.created]) [4%positive]).
  - vm_compute. reflexivity.
  - vm_compute. reflexivity.
  - vm_compute. reflexivity.
Defined.
